(** * emCircularBuffer: a shallow embedding of emCircularBuffer.c

    The C module keeps a ring of [maxElems] slots of [elemSize] bytes in one
    malloc'ed block and hands out raw slot addresses.  All of its state is the
    [CBuffer_t] struct; every function is embedded as a function on that
    struct, with the struct pointer ([CBuffer_t *]) as an [option CBuffer_t]
    ([None] is the NULL handle).

    - [size_t] values are integers in [0, 2^size_bits) with the wrap-around of
      unsigned arithmetic written out;
    - addresses are integers of the same width, NULL is address 0;
    - the porting layer of emCircularPort.h (lock switch, semaphore calls) is
      a record [Port]; the allocator is an explicit [Heap] threaded through
      [emCircularInit]. *)

From Stdlib Require Import ZArith List Lia Bool String.
Import ListNotations.
Local Open Scope Z_scope.

(** ** Machine integers and addresses *)

Definition ptr := Z.
Definition NULL : ptr := 0.

(** ** emCircularPort.h *)

Definition CB_sem_t := ptr.

Record Port := {
  (* width of size_t and of data pointers on the target *)
  size_bits : positive;
  (* #define CIRCULAR_USE_LOCK_MECHANISM *)
  CIRCULAR_USE_LOCK_MECHANISM : bool;
  (* osSemaphoreAcquire(ptrSem, osWaitForever): 0 when acquired.  The status
     is a function of the semaphore: a semaphore either can be taken by the
     calling thread at every call, or at none. *)
  osSemaphoreAcquire : CB_sem_t -> Z;
  (* osSemaphoreNew(1, 1, NULL): the new semaphore, NULL when it fails *)
  osSemaphoreNew : CB_sem_t
}.

(** The allocator behind emCircularPortMalloc: the addresses the next calls
    will return (NULL for a failed call, also once the list is used up) and
    the byte counts requested so far. *)
Record Heap := {
  malloc_results : list ptr;
  malloc_log : list Z
}.

Definition emCircularPortMalloc (bytes : Z) (h : Heap) : ptr * Heap :=
  match malloc_results h with
  | [] => (NULL, {| malloc_results := []; malloc_log := malloc_log h ++ [bytes] |})
  | p :: rest => (p, {| malloc_results := rest; malloc_log := malloc_log h ++ [bytes] |})
  end.

(** ** emCircularBuffer.h *)

Inductive CBStatus_t := CB_error | CB_true | CB_false.

Record CBuffer_t := {
  tailInd : Z;
  headInd : Z;
  startBuffer : ptr;
  elemSize : Z;
  maxElems : Z;
  NbElems : Z;
  sem : CB_sem_t
}.

Definition set_headInd (v : Z) (b : CBuffer_t) : CBuffer_t :=
  {| tailInd := tailInd b; headInd := v; startBuffer := startBuffer b;
     elemSize := elemSize b; maxElems := maxElems b; NbElems := NbElems b;
     sem := sem b |}.

Definition set_tailInd (v : Z) (b : CBuffer_t) : CBuffer_t :=
  {| tailInd := v; headInd := headInd b; startBuffer := startBuffer b;
     elemSize := elemSize b; maxElems := maxElems b; NbElems := NbElems b;
     sem := sem b |}.

Definition set_NbElems (v : Z) (b : CBuffer_t) : CBuffer_t :=
  {| tailInd := tailInd b; headInd := headInd b; startBuffer := startBuffer b;
     elemSize := elemSize b; maxElems := maxElems b; NbElems := v;
     sem := sem b |}.

(** What a call does: it returns a value, or it writes through a NULL
    pointer before it can return. *)
Inductive outcome (A : Type) :=
| Returned (a : A)
| NullDeref.
Arguments Returned {A} a.
Arguments NullDeref {A}.

Inductive Op := Produce | Consume.

(** The port as shipped: locking switched off, here on a 32-bit target. *)
Definition shipped_port : Port :=
  {| size_bits := 32%positive;
     CIRCULAR_USE_LOCK_MECHANISM := false;
     osSemaphoreAcquire := fun _ => 0;
     osSemaphoreNew := NULL |}.

(** A run of the shipped port used in the examples: capacity 4, elements of
    4 bytes, the allocator handing out the struct at 4096 and the storage at
    8192. *)
Definition heap_example : Heap :=
  {| malloc_results := [4096; 8192]; malloc_log := [] |}.

Definition heap_example_after : Heap :=
  {| malloc_results := []; malloc_log := [28; 16] |}.

Definition buffer_example : CBuffer_t :=
  {| tailInd := 0; headInd := 0; startBuffer := 8192; elemSize := 4;
     maxElems := 4; NbElems := 0; sem := NULL |}.

(** The allocator able to serve the struct only: the storage request fails. *)
Definition heap_storage_fails : Heap :=
  {| malloc_results := [4096]; malloc_log := [] |}.

(** The allocator with nothing left. *)
Definition heap_exhausted : Heap :=
  {| malloc_results := []; malloc_log := [] |}.

(** A struct whose counter was corrupted: 4 elements counted in a ring of
    capacity 4 that is not full by its indices, the head index on the last
    slot. *)
Definition buffer_overcounted : CBuffer_t :=
  {| tailInd := 1; headInd := 3; startBuffer := 8192; elemSize := 4;
     maxElems := 4; NbElems := 4; sem := NULL |}.

(** A struct whose counter is 0 although the indices differ. *)
Definition buffer_undercounted : CBuffer_t :=
  {| tailInd := 1; headInd := 3; startBuffer := 8192; elemSize := 4;
     maxElems := 4; NbElems := 0; sem := NULL |}.

(** What [emCircularDelete] asks of the porting layer: [free] of the storage
    block, [free] of the struct itself, deletion of the semaphore. *)
Inductive PortEvent :=
| EvFree (p : ptr)
| EvFreeStruct
| EvSemDelete (s : CB_sem_t).

(** Ports with locking switched on: one whose semaphores are always
    available, one whose semaphore can never be taken, one on which no
    semaphore can be created. *)
Definition locking_port : Port :=
  {| size_bits := 32%positive;
     CIRCULAR_USE_LOCK_MECHANISM := true;
     osSemaphoreAcquire := fun _ => 0;
     osSemaphoreNew := 12288 |}.

Definition locked_out_port : Port :=
  {| size_bits := 32%positive;
     CIRCULAR_USE_LOCK_MECHANISM := true;
     osSemaphoreAcquire := fun _ => -1;
     osSemaphoreNew := 12288 |}.

Definition no_semaphore_port : Port :=
  {| size_bits := 32%positive;
     CIRCULAR_USE_LOCK_MECHANISM := true;
     osSemaphoreAcquire := fun _ => 0;
     osSemaphoreNew := NULL |}.

(** The example buffer as created on [locking_port]. *)
Definition buffer_locking_example : CBuffer_t :=
  {| tailInd := 0; headInd := 0; startBuffer := 8192; elemSize := 4;
     maxElems := 4; NbElems := 0; sem := 12288 |}.

(** The example buffer after one granted producer call. *)
Definition buffer_one_produced : CBuffer_t :=
  {| tailInd := 0; headInd := 1; startBuffer := 8192; elemSize := 4;
     maxElems := 4; NbElems := 1; sem := NULL |}.

Section Buffer.

Variable P : Port.

Definition size_modulus : Z := 2 ^ Zpos (size_bits P).
Definition SIZE_MAX : Z := size_modulus - 1.

Definition wrap (x : Z) : Z := x mod size_modulus.
Definition size_add (x y : Z) : Z := wrap (x + y).
Definition size_sub (x y : Z) : Z := wrap (x - y).
Definition size_mul (x y : Z) : Z := wrap (x * y).
(* x % y on size_t.  In C a zero divisor is a division by zero (the program
   traps), whereas here the value is x; every statement below that runs
   through a % has a capacity that is not 0 among its hypotheses. *)
Definition size_rem (x y : Z) : Z := x mod y.
(* (unsigned char * )p + k *)
Definition ptr_add (p : ptr) (k : Z) : ptr := wrap (p + k).

Definition is_size_t (x : Z) : Prop := 0 <= x < size_modulus.

(* sizeof(CBuffer_t): seven fields, each as wide as size_t *)
Definition sizeof_CBuffer_t : Z := 7 * (Zpos (size_bits P) / 8).

(** The lock macros, in both settings of CIRCULAR_USE_LOCK_MECHANISM. *)
Definition emCircularPort_EnterCritical (ptrSem : CB_sem_t) : Z :=
  if CIRCULAR_USE_LOCK_MECHANISM P then osSemaphoreAcquire P ptrSem else 0.

Definition emCircularPort_InitBynSem (strName : option string) : CB_sem_t :=
  if CIRCULAR_USE_LOCK_MECHANISM P then osSemaphoreNew P else NULL.

(** ** emCircularBuffer.c *)

Definition emCircularInit (maxElems0 elemSize0 : Z) (sem_name : option string)
    (h : Heap) : outcome (option CBuffer_t) * Heap :=
  if maxElems0 <? 2 then (Returned None, h)
  else if elemSize0 <? 1 then (Returned None, h)
  else
    let '(retval, h1) := emCircularPortMalloc sizeof_CBuffer_t h in
    let '(buffer, h2) := emCircularPortMalloc (size_mul maxElems0 elemSize0) h1 in
    if retval =? NULL then (NullDeref, h2)       (* retval->headInd = 0 *)
    else
      let s := emCircularPort_InitBynSem sem_name in
      let b := {| tailInd := 0; headInd := 0; startBuffer := buffer;
                  elemSize := elemSize0; maxElems := maxElems0; NbElems := 0;
                  sem := s |} in
      if CIRCULAR_USE_LOCK_MECHANISM P && (s =? NULL)
      then (Returned None, h2)
      else (Returned (Some b), h2).

(** [emCircularIsEmpty] and [emCircularIsFull] read [buffer->sem] before they
    test [buffer] against NULL, so they are embedded on a struct that exists. *)
Definition emCircularIsEmpty (buffer : CBuffer_t) : CBStatus_t :=
  if negb (emCircularPort_EnterCritical (sem buffer) =? 0) then CB_error
  else if headInd buffer =? tailInd buffer then CB_true
  else CB_false.

Definition emCircularIsFull (buffer : CBuffer_t) : CBStatus_t :=
  if negb (emCircularPort_EnterCritical (sem buffer) =? 0) then CB_error
  else if size_rem (size_add (headInd buffer) 1) (maxElems buffer) =? tailInd buffer
       then CB_true
  else CB_false.

Definition emCircularGetRemainingSpace (buffer : option CBuffer_t) : Z :=
  match buffer with
  | None => 0
  | Some b =>
    if negb (emCircularPort_EnterCritical (sem b) =? 0) then 0
    else if maxElems b >=? NbElems b then size_sub (maxElems b) (NbElems b)
    else 0
  end.

Definition emCircularGetHead (buffer : option CBuffer_t) : ptr * option CBuffer_t :=
  match buffer with
  | None => (NULL, None)
  | Some b =>
    match emCircularIsFull b with
    | CB_true => (NULL, buffer)
    | CB_error => (NULL, buffer)
    | CB_false =>
      if negb (emCircularPort_EnterCritical (sem b) =? 0) then (NULL, buffer)
      else
        let retval := ptr_add (startBuffer b) (size_mul (headInd b) (elemSize b)) in
        let b1 := set_headInd (size_rem (size_add (headInd b) 1) (maxElems b)) b in
        let b2 := set_NbElems (size_add (NbElems b1) 1) b1 in
        let retval := if NbElems b2 >? maxElems b2 then NULL else retval in
        (retval, Some b2)
    end
  end.

(** The test [buffer->NbElems < 0] after the decrement, on the size_t field. *)
Definition underflow_guard (b : CBuffer_t) : bool := NbElems b <? 0.

Definition emCircularGetTail (buffer : option CBuffer_t) : ptr * option CBuffer_t :=
  match buffer with
  | None => (NULL, None)
  | Some b =>
    match emCircularIsEmpty b with
    | CB_true => (NULL, buffer)
    | CB_error => (NULL, buffer)
    | CB_false =>
      if negb (emCircularPort_EnterCritical (sem b) =? 0) then (NULL, buffer)
      else
        let retval := ptr_add (startBuffer b) (size_mul (tailInd b) (elemSize b)) in
        let b1 := set_tailInd (size_rem (size_add (tailInd b) 1) (maxElems b)) b in
        let b2 := set_NbElems (size_sub (NbElems b1) 1) b1 in
        let retval := if underflow_guard b2 then NULL else retval in
        (retval, Some b2)
    end
  end.

(** emCircularPortFree and emCircularPort_BynSemDelete, as the requests they
    make. *)
Definition emCircularPortFree (pointer : ptr) : list PortEvent :=
  [EvFree pointer].

Definition emCircularPort_BynSemDelete (ptrSem : CB_sem_t) : list PortEvent :=
  if CIRCULAR_USE_LOCK_MECHANISM P then [EvSemDelete ptrSem] else [].

(** [emCircularDelete] reads [buffer->sem] into [temp_sem] first of all, so a
    NULL handle is dereferenced; the test [buffer == NULL] comes after the
    storage was freed.  The result is the status with the requests made. *)
Definition emCircularDelete (buffer : option CBuffer_t)
    : outcome (CBStatus_t * list PortEvent) :=
  match buffer with
  | None => NullDeref
  | Some b =>
    let retval := CB_false in
    let sem_retval := emCircularPort_EnterCritical (sem b) in
    let temp_sem := sem b in
    if negb (sem_retval =? 0) then Returned (CB_error, [])
    else
      let ev1 := if negb (startBuffer b =? NULL)
                 then emCircularPortFree (startBuffer b) else [] in
      let '(retval, ev2) :=
        match buffer with
        | None => (CB_true, [])
        | Some _ => (retval, [EvFreeStruct])
        end in
      Returned (retval, ev1 ++ ev2 ++ emCircularPort_BynSemDelete temp_sem)
  end.

(** ** Single-threaded runs *)

Definition call (o : Op) (buffer : option CBuffer_t) : ptr * option CBuffer_t :=
  match o with
  | Produce => emCircularGetHead buffer
  | Consume => emCircularGetTail buffer
  end.

(** Runs the calls in order; the trace pairs each call with what it returned. *)
Fixpoint run (buffer : option CBuffer_t) (ops : list Op)
    : list (Op * ptr) * option CBuffer_t :=
  match ops with
  | [] => ([], buffer)
  | o :: rest =>
    let '(p, buffer1) := call o buffer in
    let '(tr, buffer2) := run buffer1 rest in
    ((o, p) :: tr, buffer2)
  end.

(** The non-NULL addresses one kind of call returned, in call order. *)
Fixpoint granted (o : Op) (tr : list (Op * ptr)) : list ptr :=
  match tr with
  | [] => []
  | (o', p) :: rest =>
    let same := match o, o' with
                | Produce, Produce | Consume, Consume => true
                | _, _ => false
                end in
    if same && negb (p =? NULL) then p :: granted o rest else granted o rest
  end.

(** The addresses granted to the producer and not yet handed to the
    consumer. *)
Definition outstanding (tr : list (Op * ptr)) : list ptr :=
  skipn (List.length (granted Consume tr)) (granted Produce tr).

Inductive reachable (b0 : CBuffer_t) : option CBuffer_t -> Prop :=
| reach_init : reachable b0 (Some b0)
| reach_call o h : reachable b0 h -> reachable b0 (snd (call o h)).

(** ** Predicates used in the statements *)

(** Every semaphore acquisition on this buffer succeeds. *)
Definition lock_ok (b : CBuffer_t) : Prop :=
  emCircularPort_EnterCritical (sem b) = 0.

(** The storage pointer is a real block of [maxElems * elemSize] bytes inside
    the address space (what a successful malloc of that many bytes gives). *)
Definition storage_ok (b : CBuffer_t) : Prop :=
  0 < startBuffer b /\ 0 < elemSize b /\
  startBuffer b + maxElems b * elemSize b <= size_modulus.

(** The data model of a buffer: indices and counter within the capacity. *)
Definition well_formed (b : CBuffer_t) : Prop :=
  2 <= maxElems b < size_modulus /\
  0 <= elemSize b < size_modulus /\
  0 <= headInd b < maxElems b /\
  0 <= tailInd b < maxElems b /\
  0 <= NbElems b < maxElems b.

Definition invariant (b : CBuffer_t) : Prop :=
  0 <= headInd b < maxElems b /\
  0 <= tailInd b < maxElems b /\
  0 <= NbElems b <= maxElems b - 1 /\
  NbElems b = (headInd b - tailInd b) mod maxElems b.

(** The struct after [H] granted producer calls and [T] granted consumer
    calls on a buffer created as [b0]. *)
Definition state_at (b0 : CBuffer_t) (H T : nat) : CBuffer_t :=
  {| tailInd := Z.of_nat T mod maxElems b0;
     headInd := Z.of_nat H mod maxElems b0;
     startBuffer := startBuffer b0;
     elemSize := elemSize b0;
     maxElems := maxElems b0;
     NbElems := Z.of_nat H - Z.of_nat T;
     sem := sem b0 |}.

(** Address of the slot the [K]-th grant (counted from 0) lands on. *)
Definition slot (b0 : CBuffer_t) (K : nat) : ptr :=
  ptr_add (startBuffer b0) (size_mul (Z.of_nat K mod maxElems b0) (elemSize b0)).

(** A struct as [emCircularInit] leaves it. *)
Definition fresh (b : CBuffer_t) : Prop :=
  headInd b = 0 /\ tailInd b = 0 /\ NbElems b = 0 /\
  2 <= maxElems b /\ 1 <= elemSize b.

(** ** Arithmetic of size_t *)

Lemma size_modulus_pos : 0 < size_modulus.
Proof. unfold size_modulus. apply Z.pow_pos_nonneg; lia. Qed.

Lemma wrap_small x : 0 <= x < size_modulus -> wrap x = x.
Proof. intros Hx. unfold wrap. now apply Z.mod_small. Qed.

Lemma wrap_range x : 0 <= wrap x < size_modulus.
Proof. unfold wrap. apply Z.mod_pos_bound, size_modulus_pos. Qed.

Lemma mod_eq_near a b c :
  0 <= a - b < c -> a mod c = b mod c -> a = b.
Proof.
  intros Hab Heq.
  assert (Hc : 0 < c) by lia.
  pose proof (Z.div_mod a c ltac:(lia)) as Ha.
  pose proof (Z.div_mod b c ltac:(lia)) as Hb.
  rewrite Heq in Ha.
  assert (Hq : a - b = c * (a / c - b / c)) by lia.
  assert (a / c - b / c = 0) by nia.
  lia.
Qed.

Lemma full_test (H T : nat) c :
  2 <= c -> (T <= H)%nat -> Z.of_nat H - Z.of_nat T <= c - 1 ->
  ((Z.of_nat H mod c + 1) mod c =? Z.of_nat T mod c)
  = (Z.of_nat H - Z.of_nat T =? c - 1).
Proof.
  intros Hc HTH Hle.
  rewrite Zplus_mod_idemp_l.
  destruct (Z.eqb_spec (Z.of_nat H - Z.of_nat T) (c - 1)) as [E | E].
  - replace (Z.of_nat H + 1) with (Z.of_nat T + 1 * c) by lia.
    rewrite Z_mod_plus_full. apply Z.eqb_refl.
  - apply Z.eqb_neq. intros Heq.
    apply mod_eq_near in Heq; lia.
Qed.

Lemma empty_test (H T : nat) c :
  2 <= c -> (T <= H)%nat -> Z.of_nat H - Z.of_nat T <= c - 1 ->
  (Z.of_nat H mod c =? Z.of_nat T mod c) = (H =? T)%nat.
Proof.
  intros Hc HTH Hle.
  destruct (Nat.eqb_spec H T) as [E | E].
  - subst. apply Z.eqb_refl.
  - apply Z.eqb_neq. intros Heq.
    apply mod_eq_near in Heq; lia.
Qed.

Lemma succ_mod (K : nat) c :
  2 <= c -> (Z.of_nat K mod c + 1) mod c = Z.of_nat (S K) mod c.
Proof.
  intros Hc. rewrite Zplus_mod_idemp_l. f_equal. lia.
Qed.

(** ** One call on a tracked state *)

Lemma of_nat_mod_range (K : nat) c : 2 <= c -> 0 <= Z.of_nat K mod c < c.
Proof. intros Hc. apply Z.mod_pos_bound. lia. Qed.

Lemma lock_ok_eqb b : lock_ok b ->
  negb (emCircularPort_EnterCritical (sem b) =? 0) = false.
Proof. unfold lock_ok. intros ->. reflexivity. Qed.

Lemma lock_ok_state_at b0 H T : lock_ok b0 -> lock_ok (state_at b0 H T).
Proof. exact (fun Hl => Hl). Qed.

Lemma IsFull_at b0 (H T : nat) :
  2 <= maxElems b0 < size_modulus -> lock_ok b0 ->
  (T <= H)%nat -> Z.of_nat H - Z.of_nat T <= maxElems b0 - 1 ->
  emCircularIsFull (state_at b0 H T)
  = if Z.of_nat H - Z.of_nat T =? maxElems b0 - 1 then CB_true else CB_false.
Proof.
  intros Hc Hl HTH Hle.
  unfold emCircularIsFull.
  rewrite (lock_ok_eqb (state_at b0 H T)) by exact Hl.
  cbn [headInd tailInd maxElems state_at].
  unfold size_rem, size_add.
  pose proof (of_nat_mod_range H (maxElems b0) ltac:(lia)).
  rewrite wrap_small by lia.
  rewrite full_test by lia.
  reflexivity.
Qed.

Lemma IsEmpty_at b0 (H T : nat) :
  2 <= maxElems b0 < size_modulus -> lock_ok b0 ->
  (T <= H)%nat -> Z.of_nat H - Z.of_nat T <= maxElems b0 - 1 ->
  emCircularIsEmpty (state_at b0 H T)
  = if (H =? T)%nat then CB_true else CB_false.
Proof.
  intros Hc Hl HTH Hle.
  unfold emCircularIsEmpty.
  rewrite (lock_ok_eqb (state_at b0 H T)) by exact Hl.
  cbn [headInd tailInd maxElems state_at].
  rewrite empty_test by lia.
  reflexivity.
Qed.

Lemma GetHead_at b0 (H T : nat) :
  2 <= maxElems b0 < size_modulus -> lock_ok b0 ->
  (T <= H)%nat -> Z.of_nat H - Z.of_nat T <= maxElems b0 - 1 ->
  emCircularGetHead (Some (state_at b0 H T))
  = if Z.of_nat H - Z.of_nat T =? maxElems b0 - 1
    then (NULL, Some (state_at b0 H T))
    else (slot b0 H, Some (state_at b0 (S H) T)).
Proof.
  intros Hc Hl HTH Hle.
  unfold emCircularGetHead.
  rewrite IsFull_at by assumption.
  destruct (Z.eqb_spec (Z.of_nat H - Z.of_nat T) (maxElems b0 - 1)) as [E | E];
    [reflexivity |].
  rewrite (lock_ok_eqb (state_at b0 H T)) by exact Hl.
  cbn [headInd tailInd maxElems NbElems startBuffer elemSize sem
       state_at set_headInd set_NbElems].
  unfold size_rem, size_add.
  pose proof (of_nat_mod_range H (maxElems b0) ltac:(lia)).
  rewrite !wrap_small by lia.
  replace (Z.of_nat H - Z.of_nat T + 1 >? maxElems b0) with false
    by (symmetry; rewrite Z.gtb_ltb; apply Z.ltb_ge; lia).
  rewrite succ_mod by lia.
  unfold slot, state_at, set_NbElems, set_headInd, set_tailInd;
    cbn [headInd tailInd maxElems NbElems startBuffer elemSize sem].
  replace (Z.of_nat (S H) - Z.of_nat T) with (Z.of_nat H - Z.of_nat T + 1) by lia.
  reflexivity.
Qed.

Lemma GetTail_at b0 (H T : nat) :
  2 <= maxElems b0 < size_modulus -> lock_ok b0 ->
  (T <= H)%nat -> Z.of_nat H - Z.of_nat T <= maxElems b0 - 1 ->
  emCircularGetTail (Some (state_at b0 H T))
  = if (H =? T)%nat
    then (NULL, Some (state_at b0 H T))
    else (slot b0 T, Some (state_at b0 H (S T))).
Proof.
  intros Hc Hl HTH Hle.
  unfold emCircularGetTail.
  rewrite IsEmpty_at by assumption.
  destruct (Nat.eqb_spec H T) as [E | E]; [reflexivity |].
  rewrite (lock_ok_eqb (state_at b0 H T)) by exact Hl.
  cbn [headInd tailInd maxElems NbElems startBuffer elemSize sem
       state_at set_tailInd set_NbElems underflow_guard].
  unfold size_rem, size_add, size_sub.
  pose proof (of_nat_mod_range T (maxElems b0) ltac:(lia)).
  rewrite !wrap_small by lia.
  rewrite succ_mod by lia.
  unfold slot, state_at, set_NbElems, set_headInd, set_tailInd, underflow_guard;
    cbn [headInd tailInd maxElems NbElems startBuffer elemSize sem].
  replace (Z.of_nat H - Z.of_nat T - 1 <? 0) with false
    by (symmetry; apply Z.ltb_ge; lia).
  replace (Z.of_nat H - Z.of_nat (S T)) with (Z.of_nat H - Z.of_nat T - 1) by lia.
  reflexivity.
Qed.

(** When the semaphore cannot be taken no call changes anything. *)
Lemma call_lock_failed o b :
  ~ lock_ok b -> call o (Some b) = (NULL, Some b).
Proof.
  intros Hl.
  assert (E : negb (emCircularPort_EnterCritical (sem b) =? 0) = true).
  { apply negb_true_iff, Z.eqb_neq. exact Hl. }
  destruct o; cbn [call]; unfold emCircularGetHead, emCircularGetTail,
    emCircularIsFull, emCircularIsEmpty; rewrite E; reflexivity.
Qed.

Lemma fresh_state_at b : fresh b -> b = state_at b 0 0.
Proof.
  intros (Hh & Ht & Hn & Hc & _).
  destruct b as [t h s e m n l]; cbn in *; subst.
  reflexivity.
Qed.

(** The slot addresses lie inside the storage block, so none is NULL. *)
Lemma slot_address b0 (K : nat) :
  2 <= maxElems b0 -> storage_ok b0 ->
  slot b0 K = startBuffer b0 + (Z.of_nat K mod maxElems b0) * elemSize b0.
Proof.
  intros Hc (Hs & He & Hend).
  pose proof (of_nat_mod_range K (maxElems b0) Hc) as Hr.
  unfold slot, ptr_add, size_mul.
  set (k := Z.of_nat K mod maxElems b0) in *.
  assert (Hk : 0 <= k * elemSize b0 <= maxElems b0 * elemSize b0 - elemSize b0)
    by nia.
  rewrite (wrap_small (k * elemSize b0)) by lia.
  rewrite wrap_small by lia.
  reflexivity.
Qed.

Lemma slot_not_null b0 (K : nat) :
  2 <= maxElems b0 -> storage_ok b0 -> slot b0 K <> NULL.
Proof.
  intros Hc Hs. rewrite slot_address by assumption.
  destruct Hs as (Hs & He & Hend).
  pose proof (of_nat_mod_range K (maxElems b0) Hc) as Hr.
  unfold NULL. nia.
Qed.

(** ** Creation *)

Lemma Init_success m e name h b0 h' :
  emCircularInit m e name h = (Returned (Some b0), h') ->
  fresh b0 /\ maxElems b0 = m /\ elemSize b0 = e.
Proof.
  unfold emCircularInit.
  destruct (Z.ltb_spec m 2); [discriminate |].
  destruct (Z.ltb_spec e 1); [discriminate |].
  destruct (emCircularPortMalloc sizeof_CBuffer_t h) as [retval h1].
  destruct (emCircularPortMalloc (size_mul m e) h1) as [buffer h2].
  destruct (retval =? NULL); [discriminate |].
  destruct (CIRCULAR_USE_LOCK_MECHANISM P && _); [discriminate |].
  intros [= <- _]. unfold fresh; cbn. lia.
Qed.

Lemma storage_ok_capacity b :
  0 <= maxElems b -> storage_ok b -> maxElems b < size_modulus.
Proof. intros Hc (Hs & He & Hend). nia. Qed.

(** ** Runs on tracked states *)

Lemma lock_ok_dec b : {lock_ok b} + {~ lock_ok b}.
Proof. unfold lock_ok. apply Z.eq_dec. Qed.

Lemma run_app h ops1 ops2 :
  run h (ops1 ++ ops2)
  = let '(tr1, h1) := run h ops1 in
    let '(tr2, h2) := run h1 ops2 in
    (tr1 ++ tr2, h2).
Proof.
  revert h. induction ops1 as [| o ops1 IH]; intros h; cbn [run app].
  - destruct (run h ops2); reflexivity.
  - destruct (call o h) as [p h1]. rewrite IH.
    destruct (run h1 ops1) as [tr1 h2]. destruct (run h2 ops2). reflexivity.
Qed.

(** Producer calls alone: each lands on the next slot while room is left. *)
Lemma run_produce b0 (n H T : nat) :
  2 <= maxElems b0 < size_modulus -> lock_ok b0 ->
  (T <= H)%nat -> Z.of_nat H + Z.of_nat n - Z.of_nat T <= maxElems b0 - 1 ->
  run (Some (state_at b0 H T)) (repeat Produce n)
  = (map (fun K => (Produce, slot b0 K)) (seq H n),
     Some (state_at b0 (H + n) T)).
Proof.
  intros Hc Hl. revert H.
  induction n as [| n IH]; intros H HTH Hle; cbn [repeat run seq map].
  - rewrite Nat.add_0_r. reflexivity.
  - cbn [call]. rewrite GetHead_at by (assumption || lia).
    destruct (Z.eqb_spec (Z.of_nat H - Z.of_nat T) (maxElems b0 - 1)); [lia |].
    rewrite IH by lia.
    replace (S H + n)%nat with (H + S n)%nat by lia. reflexivity.
Qed.

(** Any run from a tracked state ends in a tracked state, and the granted
    addresses are the slots in counting order. *)
Lemma run_tracked b0 ops : forall H T : nat,
  2 <= maxElems b0 < size_modulus -> lock_ok b0 ->
  (T <= H)%nat -> Z.of_nat H - Z.of_nat T <= maxElems b0 - 1 ->
  storage_ok b0 ->
  exists nh nt : nat,
    snd (run (Some (state_at b0 H T)) ops) = Some (state_at b0 (H + nh) (T + nt))
    /\ (T + nt <= H + nh)%nat
    /\ granted Produce (fst (run (Some (state_at b0 H T)) ops))
       = map (slot b0) (seq H nh)
    /\ granted Consume (fst (run (Some (state_at b0 H T)) ops))
       = map (slot b0) (seq T nt).
Proof.
  induction ops as [| o ops IH]; intros H T Hc Hl HTH Hle Hs.
  - exists 0%nat, 0%nat. cbn. rewrite !Nat.add_0_r. auto.
  - cbn [run]. destruct o; cbn [call].
    + rewrite GetHead_at by assumption.
      destruct (Z.eqb_spec (Z.of_nat H - Z.of_nat T) (maxElems b0 - 1)) as [E | E].
      * destruct (IH H T) as (nh & nt & Hfin & Hord & Hp & Hq); try assumption.
        exists nh, nt.
        destruct (run (Some (state_at b0 H T)) ops) as [tr h2].
        cbn [fst snd granted] in *. cbn. auto.
      * destruct (IH (S H) T) as (nh & nt & Hfin & Hord & Hp & Hq);
          try assumption; try lia.
        exists (S nh), nt.
        destruct (run (Some (state_at b0 (S H) T)) ops) as [tr h2].
        cbn [fst snd granted] in *.
        pose proof (slot_not_null b0 H ltac:(lia) Hs) as Hnn.
        apply Z.eqb_neq in Hnn. rewrite Hnn. cbn [andb negb seq map].
        rewrite Hp, Hq, Hfin.
        replace (H + S nh)%nat with (S H + nh)%nat by lia.
        repeat split; auto; lia.
    + rewrite GetTail_at by assumption.
      destruct (Nat.eqb_spec H T) as [E | E].
      * destruct (IH H T) as (nh & nt & Hfin & Hord & Hp & Hq); try assumption.
        exists nh, nt.
        destruct (run (Some (state_at b0 H T)) ops) as [tr h2].
        cbn [fst snd granted] in *. cbn. auto.
      * destruct (IH H (S T)) as (nh & nt & Hfin & Hord & Hp & Hq);
          try assumption; try lia.
        exists nh, (S nt).
        destruct (run (Some (state_at b0 H (S T))) ops) as [tr h2].
        cbn [fst snd granted] in *.
        pose proof (slot_not_null b0 T ltac:(lia) Hs) as Hnn.
        apply Z.eqb_neq in Hnn. rewrite Hnn. cbn [andb negb seq map].
        rewrite Hp, Hq, Hfin.
        replace (T + S nt)%nat with (S T + nt)%nat by lia.
        repeat split; auto; lia.
Qed.

(** With the semaphore out of reach a run grants nothing. *)
Lemma run_lock_failed b ops :
  ~ lock_ok b ->
  run (Some b) ops = (map (fun o => (o, NULL)) ops, Some b).
Proof.
  intros Hl. induction ops as [| o ops IH]; cbn [run map]; [reflexivity |].
  rewrite call_lock_failed by assumption. rewrite IH. reflexivity.
Qed.

Lemma granted_all_null o ops :
  granted o (map (fun o' => (o', NULL)) ops) = [].
Proof.
  induction ops as [| o' ops IH]; cbn [map granted]; [reflexivity |].
  cbn. rewrite andb_false_r. exact IH.
Qed.

(** Every reachable handle is a tracked state. *)
Lemma reachable_tracked b0 h :
  fresh b0 -> maxElems b0 < size_modulus -> reachable b0 h ->
  exists H T : nat,
    h = Some (state_at b0 H T) /\ (T <= H)%nat /\
    Z.of_nat H - Z.of_nat T <= maxElems b0 - 1.
Proof.
  intros Hf Hm Hr.
  assert (Hc : 2 <= maxElems b0 < size_modulus) by (unfold fresh in Hf; lia).
  induction Hr as [| o h Hr IH].
  - exists 0%nat, 0%nat. split; [f_equal; now apply fresh_state_at | lia].
  - destruct IH as (H & T & -> & HTH & Hle).
    destruct (lock_ok_dec b0) as [Hl | Hl].
    + destruct o; cbn [call].
      * rewrite GetHead_at by assumption.
        destruct (Z.eqb_spec (Z.of_nat H - Z.of_nat T) (maxElems b0 - 1)).
        -- exists H, T. auto.
        -- exists (S H), T. cbn [snd]. repeat split; auto; lia.
      * rewrite GetTail_at by assumption.
        destruct (Nat.eqb_spec H T).
        -- exists H, T. auto.
        -- exists H, (S T). cbn [snd]. repeat split; auto; lia.
    + rewrite call_lock_failed by exact Hl.
      exists H, T. auto.
Qed.

(** ** Filling the ring *)

(** C1.  On a buffer just created with capacity [m] (storage allocated, the
    semaphore available), the first [m - 1] calls of [emCircularGetHead] each
    return a non-NULL address, after them [emCircularIsFull] answers
    [CB_true], and the [m]-th call returns NULL. *)
Theorem GetHead_fills_in_capacity_minus_one m e name heap b0 heap' :
  emCircularInit m e name heap = (Returned (Some b0), heap') ->
  storage_ok b0 -> lock_ok b0 ->
  exists tr b,
    run (Some b0) (repeat Produce (Z.to_nat (m - 1))) = (tr, Some b)
    /\ List.length tr = Z.to_nat (m - 1)
    /\ Forall (fun r => snd r <> NULL) tr
    /\ emCircularIsFull b = CB_true
    /\ fst (emCircularGetHead (Some b)) = NULL.
Proof.
  intros Hinit Hs Hl.
  apply Init_success in Hinit as (Hf & Hm & He).
  assert (Hc : 2 <= maxElems b0 < size_modulus).
  { split; [apply Hf | apply storage_ok_capacity; [unfold fresh in Hf; lia | exact Hs]]. }
  subst m.
  set (n := Z.to_nat (maxElems b0 - 1)).
  assert (Hn : Z.of_nat n = maxElems b0 - 1) by (unfold n; lia).
  exists (map (fun K => (Produce, slot b0 K)) (seq 0 n)), (state_at b0 n 0).
  split; [| split; [| split; [| split]]].
  - rewrite (fresh_state_at b0 Hf) at 1.
    rewrite run_produce by (assumption || lia). reflexivity.
  - rewrite length_map, length_seq. reflexivity.
  - apply Forall_map, Forall_forall. intros K _. cbn [snd].
    apply slot_not_null; [lia | exact Hs].
  - rewrite IsFull_at by (assumption || lia).
    replace (Z.of_nat n - Z.of_nat 0) with (maxElems b0 - 1) by lia.
    rewrite Z.eqb_refl. reflexivity.
  - rewrite GetHead_at by (assumption || lia).
    replace (Z.of_nat n - Z.of_nat 0) with (maxElems b0 - 1) by lia.
    rewrite Z.eqb_refl. reflexivity.
Qed.

(** ** First in, first out *)

Lemma nth_error_slots_prefix b0 (nt nh K : nat) p :
  (nt <= nh)%nat ->
  nth_error (map (slot b0) (seq 0 nt)) K = Some p ->
  nth_error (map (slot b0) (seq 0 nh)) K = Some p.
Proof.
  intros Hle Hk.
  replace nh with (nt + (nh - nt))%nat by lia.
  rewrite seq_app, map_app, nth_error_app1; [exact Hk |].
  apply nth_error_Some. congruence.
Qed.

(** C2.  On a created buffer with its storage allocated, in any sequence of
    [emCircularGetHead] and [emCircularGetTail] calls, the [K]-th successful
    (non-NULL) [emCircularGetTail] returns the very address the [K]-th
    successful [emCircularGetHead] returned.  The calls a full or empty ring
    refuses return NULL and count for nothing, so the sequences of the claim
    ([N <= capacity - 1] productions, each consumed later) are among these. *)
Theorem GetTail_returns_GetHead_addresses_in_order m e name heap b0 heap' :
  emCircularInit m e name heap = (Returned (Some b0), heap') ->
  storage_ok b0 ->
  forall (ops : list Op) (K : nat) (p : ptr),
    nth_error (granted Consume (fst (run (Some b0) ops))) K = Some p ->
    nth_error (granted Produce (fst (run (Some b0) ops))) K = Some p.
Proof.
  intros Hinit Hs ops K p.
  apply Init_success in Hinit as (Hf & Hm & He).
  assert (Hc : 2 <= maxElems b0 < size_modulus).
  { split; [apply Hf | apply storage_ok_capacity; [unfold fresh in Hf; lia | exact Hs]]. }
  destruct (lock_ok_dec b0) as [Hl | Hl].
  - rewrite (fresh_state_at b0 Hf) at 1 2.
    destruct (run_tracked b0 ops 0 0 Hc Hl) as (nh & nt & _ & Hord & Hp & Hq);
      try lia; try assumption.
    rewrite Hp, Hq. apply nth_error_slots_prefix. lia.
  - rewrite run_lock_failed by exact Hl. cbn [fst].
    rewrite granted_all_null. destruct K; discriminate.
Qed.

(** ** Single calls *)

(** C5.  On a buffer of the data model that is not full, [emCircularGetHead]
    returns [startBuffer + headInd * elemSize] taken at the head index before
    the call; afterwards the head index is [(headInd + 1) mod maxElems], the
    element count is one more and the tail index is the same.  (The address is
    the C expression; on allocated storage it is the exact sum.) *)
Theorem GetHead_grants_head_slot b :
  well_formed b -> emCircularIsFull b = CB_false ->
  exists b',
    emCircularGetHead (Some b)
    = (ptr_add (startBuffer b) (size_mul (headInd b) (elemSize b)), Some b')
    /\ headInd b' = (headInd b + 1) mod maxElems b
    /\ NbElems b' = NbElems b + 1
    /\ tailInd b' = tailInd b
    /\ (storage_ok b ->
        ptr_add (startBuffer b) (size_mul (headInd b) (elemSize b))
        = startBuffer b + headInd b * elemSize b).
Proof.
  intros (Hc & He & Hh & Ht & Hn) Hfull.
  assert (Hl : negb (emCircularPort_EnterCritical (sem b) =? 0) = false).
  { unfold emCircularIsFull in Hfull.
    destruct (negb (emCircularPort_EnterCritical (sem b) =? 0));
      [discriminate | reflexivity]. }
  eexists. split; [| split; [| split; [| split]]].
  - unfold emCircularGetHead. rewrite Hfull, Hl.
    cbn [NbElems maxElems set_NbElems set_headInd].
    assert (En : size_add (NbElems b) 1 = NbElems b + 1)
      by (unfold size_add; apply wrap_small; lia).
    rewrite En.
    replace (NbElems b + 1 >? maxElems b) with false
      by (symmetry; rewrite Z.gtb_ltb; apply Z.ltb_ge; lia).
    reflexivity.
  - cbn. unfold size_rem, size_add. rewrite wrap_small by lia. reflexivity.
  - reflexivity.
  - reflexivity.
  - intros (Hs & Hes & Hend). unfold ptr_add, size_mul.
    assert (0 <= headInd b * elemSize b
            <= maxElems b * elemSize b - elemSize b) by nia.
    rewrite (wrap_small (headInd b * elemSize b)) by lia.
    rewrite wrap_small by lia. reflexivity.
Qed.

(** C6.  On an empty buffer ([headInd = tailInd]) [emCircularGetTail] returns
    NULL and the struct is left exactly as it was. *)
Theorem GetTail_on_empty_changes_nothing b :
  headInd b = tailInd b ->
  emCircularGetTail (Some b) = (NULL, Some b).
Proof.
  intros Heq. unfold emCircularGetTail, emCircularIsEmpty.
  destruct (negb (emCircularPort_EnterCritical (sem b) =? 0)); [reflexivity |].
  rewrite Heq, Z.eqb_refl. reflexivity.
Qed.

(** C8.  On a struct of capacity above 0 whose head index is within the
    capacity, when [emCircularGetHead] gets past the fullness test and the
    element count after [NbElems++] is above [maxElems] (the increment not
    wrapping), it returns NULL, and the struct it leaves has the count
    [NbElems + 1] and the head index [(headInd + 1) mod maxElems]: nothing is
    rolled back. *)
Theorem GetHead_overcount_returns_NULL_without_rollback b :
  0 < maxElems b < size_modulus ->
  0 <= headInd b < maxElems b ->
  emCircularIsFull b = CB_false ->
  maxElems b < NbElems b + 1 < size_modulus ->
  exists b',
    emCircularGetHead (Some b) = (NULL, Some b')
    /\ NbElems b' = NbElems b + 1
    /\ headInd b' = (headInd b + 1) mod maxElems b
    /\ tailInd b' = tailInd b
    /\ startBuffer b' = startBuffer b /\ elemSize b' = elemSize b
    /\ maxElems b' = maxElems b /\ sem b' = sem b.
Proof.
  intros Hc Hh Hfull Hover.
  assert (Hl : negb (emCircularPort_EnterCritical (sem b) =? 0) = false).
  { unfold emCircularIsFull in Hfull.
    destruct (negb (emCircularPort_EnterCritical (sem b) =? 0));
      [discriminate | reflexivity]. }
  assert (En : size_add (NbElems b) 1 = NbElems b + 1)
    by (unfold size_add; apply wrap_small; lia).
  assert (Eh : size_rem (size_add (headInd b) 1) (maxElems b)
               = (headInd b + 1) mod maxElems b)
    by (unfold size_rem, size_add; rewrite wrap_small by lia; reflexivity).
  exists (set_NbElems (NbElems b + 1)
            (set_headInd ((headInd b + 1) mod maxElems b) b)).
  split; [| repeat split].
  unfold emCircularGetHead. rewrite Hfull, Hl.
  cbn [NbElems maxElems set_NbElems set_headInd].
  rewrite En, Eh.
  replace (NbElems b + 1 >? maxElems b) with true
    by (symmetry; rewrite Z.gtb_ltb; apply Z.ltb_lt; lia).
  reflexivity.
Qed.

(** C9.  The test [NbElems < 0] that [emCircularGetTail] makes after the
    decrement is false whatever the struct holds, the decrement of a size_t
    wrapping to a value that is not negative; so on every struct of capacity
    other than 0, whenever the call gets past the emptiness test it returns
    the computed slot address, never NULL in place of it, the count left being
    [(NbElems - 1) mod 2^size_bits]. *)
Theorem GetTail_underflow_guard_never_fires :
  (forall b n, underflow_guard (set_NbElems (size_sub n 1) b) = false)
  /\ (forall b, maxElems b <> 0 -> emCircularIsEmpty b = CB_false ->
        emCircularGetTail (Some b)
        = (ptr_add (startBuffer b) (size_mul (tailInd b) (elemSize b)),
           Some (set_NbElems (size_sub (NbElems b) 1)
                   (set_tailInd (size_rem (size_add (tailInd b) 1) (maxElems b)) b)))
        /\ size_sub (NbElems b) 1 = (NbElems b - 1) mod 2 ^ Zpos (size_bits P)
        /\ 0 <= size_sub (NbElems b) 1
        /\ size_rem (size_add (tailInd b) 1) (maxElems b)
           = ((tailInd b + 1) mod 2 ^ Zpos (size_bits P)) mod maxElems b).
Proof.
  assert (Hg : forall b n, underflow_guard (set_NbElems (size_sub n 1) b) = false).
  { intros b n. unfold underflow_guard, set_NbElems, size_sub; cbn [NbElems].
    apply Z.ltb_ge. apply wrap_range. }
  split; [exact Hg |].
  intros b Hc Hempty.
  assert (Hl : negb (emCircularPort_EnterCritical (sem b) =? 0) = false).
  { unfold emCircularIsEmpty in Hempty.
    destruct (negb (emCircularPort_EnterCritical (sem b) =? 0));
      [discriminate | reflexivity]. }
  split; [| split; [reflexivity | split; [apply wrap_range | reflexivity]]].
  unfold emCircularGetTail. rewrite Hempty, Hl.
  cbn zeta. rewrite Hg. reflexivity.
Qed.

(** ** The invariant *)

Lemma state_at_invariant b0 (H T : nat) :
  2 <= maxElems b0 ->
  (T <= H)%nat -> Z.of_nat H - Z.of_nat T <= maxElems b0 - 1 ->
  invariant (state_at b0 H T).
Proof.
  intros Hc HTH Hle. unfold invariant.
  cbn [headInd tailInd NbElems maxElems state_at].
  pose proof (of_nat_mod_range H (maxElems b0) Hc).
  pose proof (of_nat_mod_range T (maxElems b0) Hc).
  repeat split; try lia.
  rewrite <- Zminus_mod. symmetry. apply Z.mod_small. lia.
Qed.

(** C10.  Every handle reached from a successful [emCircularInit] by calls of
    [emCircularGetHead] and [emCircularGetTail] points to a struct of the same
    capacity whose head and tail indices are in [0, maxElems), whose element
    count is between 0 and [maxElems - 1], and whose element count is
    [(headInd - tailInd) mod maxElems]. *)
Theorem reachable_states_keep_invariant m e name heap b0 heap' h :
  emCircularInit m e name heap = (Returned (Some b0), heap') ->
  is_size_t m ->
  reachable b0 h ->
  exists b, h = Some b /\ maxElems b = m /\ invariant b.
Proof.
  intros Hinit Hm Hr.
  apply Init_success in Hinit as (Hf & Hcap & He). subst m.
  destruct (reachable_tracked b0 h Hf (proj2 Hm) Hr) as (H & T & -> & HTH & Hle).
  exists (state_at b0 H T). split; [reflexivity | split; [reflexivity |]].
  apply state_at_invariant; [apply Hf | assumption | assumption].
Qed.

(** ** What a new buffer reports, and the remaining space *)

Lemma fresh_buffer_reports b0 :
  fresh b0 -> maxElems b0 < size_modulus -> lock_ok b0 ->
  emCircularIsEmpty b0 = CB_true
  /\ emCircularIsFull b0 = CB_false
  /\ emCircularGetRemainingSpace (Some b0) = maxElems b0.
Proof.
  intros Hf Hm Hl.
  assert (Hc : 2 <= maxElems b0 < size_modulus) by (unfold fresh in Hf; lia).
  rewrite (fresh_state_at b0 Hf).
  rewrite IsEmpty_at, IsFull_at by (assumption || lia).
  cbn [Nat.eqb].
  destruct (Z.eqb_spec (Z.of_nat 0 - Z.of_nat 0) (maxElems b0 - 1)); [lia |].
  repeat split.
  unfold emCircularGetRemainingSpace.
  rewrite (lock_ok_eqb (state_at b0 0 0)) by exact Hl.
  cbn [maxElems NbElems state_at]. cbn [Z.of_nat Z.sub Z.opp Z.add].
  replace (maxElems b0 >=? 0) with true
    by (symmetry; rewrite Z.geb_leb; apply Z.leb_le; lia).
  unfold size_sub. rewrite Z.sub_0_r. apply wrap_small. lia.
Qed.

(** On a tracked state the remaining space is [maxElems - NbElems], whereas
    the producer calls that still succeed are one fewer. *)
Lemma remaining_space_is_one_more_than_grants b0 (H T : nat) :
  2 <= maxElems b0 < size_modulus -> lock_ok b0 -> storage_ok b0 ->
  (T <= H)%nat -> Z.of_nat H - Z.of_nat T <= maxElems b0 - 1 ->
  let h := Some (state_at b0 H T) in
  let n := Z.to_nat (emCircularGetRemainingSpace h - 1) in
  emCircularGetRemainingSpace h = maxElems b0 - NbElems (state_at b0 H T)
  /\ Forall (fun r => snd r <> NULL) (fst (run h (repeat Produce n)))
  /\ fst (emCircularGetHead (snd (run h (repeat Produce n)))) = NULL.
Proof.
  intros Hc Hl Hs HTH Hle h n.
  assert (Hrem : emCircularGetRemainingSpace h
                 = maxElems b0 - (Z.of_nat H - Z.of_nat T)).
  { unfold h, emCircularGetRemainingSpace.
    rewrite (lock_ok_eqb (state_at b0 H T)) by exact Hl.
    cbn [maxElems NbElems state_at].
    replace (maxElems b0 >=? Z.of_nat H - Z.of_nat T) with true
      by (symmetry; rewrite Z.geb_leb; apply Z.leb_le; lia).
    unfold size_sub. apply wrap_small. lia. }
  assert (Hn : Z.of_nat n = maxElems b0 - 1 - (Z.of_nat H - Z.of_nat T))
    by (unfold n; rewrite Hrem; lia).
  split; [exact Hrem |].
  unfold h. rewrite run_produce by (assumption || lia).
  cbn [fst snd]. split.
  - apply Forall_map, Forall_forall. intros K _. cbn [snd].
    apply slot_not_null; [lia | exact Hs].
  - rewrite GetHead_at by (assumption || lia).
    replace (Z.of_nat (H + n) - Z.of_nat T) with (maxElems b0 - 1) by lia.
    rewrite Z.eqb_refl. reflexivity.
Qed.

(** ** The ways [emCircularInit] refuses *)

Lemma Init_rejects_small_capacity m e name h :
  m < 2 -> emCircularInit m e name h = (Returned None, h).
Proof.
  intros Hm. unfold emCircularInit.
  destruct (Z.ltb_spec m 2); [reflexivity | lia].
Qed.

Lemma Init_rejects_zero_elemSize m e name h :
  e < 1 -> emCircularInit m e name h = (Returned None, h).
Proof.
  intros He. unfold emCircularInit.
  destruct (m <? 2); [reflexivity |].
  destruct (Z.ltb_spec e 1); [reflexivity | lia].
Qed.

Lemma Init_lock_creation_failure m e name h b :
  CIRCULAR_USE_LOCK_MECHANISM P = true -> osSemaphoreNew P = NULL ->
  fst (emCircularInit m e name h) <> Returned (Some b).
Proof.
  intros Hlock Hnew. unfold emCircularInit, emCircularPort_InitBynSem.
  rewrite Hlock, Hnew.
  destruct (m <? 2); [discriminate |].
  destruct (e <? 1); [discriminate |].
  destruct (emCircularPortMalloc sizeof_CBuffer_t h) as [retval h1].
  destruct (emCircularPortMalloc (size_mul m e) h1) as [buffer h2].
  destruct (retval =? NULL); discriminate.
Qed.

(** A failed storage request goes unnoticed: the handle comes back with a
    NULL storage pointer. *)
Lemma Init_storage_malloc_failure m e name p log :
  2 <= m -> 1 <= e -> p <> NULL ->
  CIRCULAR_USE_LOCK_MECHANISM P = false ->
  exists b h',
    emCircularInit m e name {| malloc_results := [p]; malloc_log := log |}
    = (Returned (Some b), h')
    /\ startBuffer b = NULL.
Proof.
  intros Hm He Hp Hlock. unfold emCircularInit, emCircularPort_InitBynSem.
  destruct (Z.ltb_spec m 2); [lia |].
  destruct (Z.ltb_spec e 1); [lia |].
  cbn [emCircularPortMalloc malloc_results malloc_log].
  apply Z.eqb_neq in Hp. rewrite Hp, Hlock. cbn [andb].
  eexists _, _. split; reflexivity.
Qed.

(** * Beyond the single calls: runs, lock failure, deletion *)

(** ** Helpers shared by the statements below *)

Lemma created_capacity m e name heap b0 heap' :
  emCircularInit m e name heap = (Returned (Some b0), heap') ->
  storage_ok b0 ->
  fresh b0 /\ maxElems b0 = m /\ 2 <= maxElems b0 < size_modulus.
Proof.
  intros Hinit Hs.
  apply Init_success in Hinit as (Hf & Hm & _).
  split; [exact Hf | split; [exact Hm |]].
  split; [apply Hf |].
  apply storage_ok_capacity; [unfold fresh in Hf; lia | exact Hs].
Qed.

Lemma run_reachable b0 ops : forall h,
  reachable b0 h -> reachable b0 (snd (run h ops)).
Proof.
  induction ops as [| o ops IH]; intros h Hr; cbn [run].
  - exact Hr.
  - pose proof (reach_call b0 o h Hr) as Hstep.
    destruct (call o h) as [p h1]. cbn [snd] in Hstep.
    specialize (IH h1 Hstep).
    destruct (run h1 ops) as [tr h2]. exact IH.
Qed.

(** A run on a created buffer: the counts of grants give the final struct
    and the two lists of granted addresses. *)
Lemma run_from_created b0 ops :
  fresh b0 -> 2 <= maxElems b0 < size_modulus -> lock_ok b0 -> storage_ok b0 ->
  exists nh nt : nat,
    snd (run (Some b0) ops) = Some (state_at b0 nh nt)
    /\ (nt <= nh)%nat
    /\ Z.of_nat nh - Z.of_nat nt <= maxElems b0 - 1
    /\ granted Produce (fst (run (Some b0) ops)) = map (slot b0) (seq 0 nh)
    /\ granted Consume (fst (run (Some b0) ops)) = map (slot b0) (seq 0 nt).
Proof.
  intros Hf Hc Hl Hs.
  pose proof (run_reachable b0 ops (Some b0) (reach_init b0)) as Hr.
  apply reachable_tracked in Hr as (H & T & Hfin' & HTH & Hle);
    [| exact Hf | lia].
  assert (E : Some b0 = Some (state_at b0 0 0))
    by (f_equal; apply fresh_state_at, Hf).
  rewrite E in *. clear E.
  destruct (run_tracked b0 ops 0 0 Hc Hl) as (nh & nt & Hfin & Hord & Hp & Hq);
    try lia; try assumption.
  cbn [Nat.add] in *.
  exists nh, nt. repeat split; try assumption.
  rewrite Hfin in Hfin'. injection Hfin' as _ _ Hcount. lia.
Qed.

Lemma nth_error_slots b0 (a n i : nat) p :
  nth_error (map (slot b0) (seq a n)) i = Some p ->
  (i < n)%nat /\ p = slot b0 (a + i).
Proof.
  rewrite nth_error_map, nth_error_seq.
  destruct (Nat.ltb_spec i n); cbn; [| discriminate].
  intros [= <-]. auto.
Qed.

Lemma call_keeps_fields o b :
  exists b',
    snd (call o (Some b)) = Some b'
    /\ startBuffer b' = startBuffer b /\ elemSize b' = elemSize b
    /\ maxElems b' = maxElems b /\ sem b' = sem b.
Proof.
  destruct o; cbn [call]; unfold emCircularGetHead, emCircularGetTail.
  - destruct (emCircularIsFull b); try (exists b; cbn; tauto).
    destruct (negb _); eexists; cbn; eauto.
  - destruct (emCircularIsEmpty b); try (exists b; cbn; tauto).
    destruct (negb _); eexists; cbn; eauto.
Qed.


(** ** The configuration fields *)

(** X1.  Whatever struct the calls start from, every handle reached by
    [emCircularGetHead] and [emCircularGetTail] calls is non-NULL and has the
    storage pointer, element size, capacity and semaphore it started with. *)
Theorem calls_never_change_configuration b0 h :
  reachable b0 h ->
  exists b,
    h = Some b
    /\ startBuffer b = startBuffer b0 /\ elemSize b = elemSize b0
    /\ maxElems b = maxElems b0 /\ sem b = sem b0.
Proof.
  induction 1 as [| o h Hr IH].
  - exists b0. tauto.
  - destruct IH as (b & -> & E1 & E2 & E3 & E4).
    destruct (call_keeps_fields o b) as (b1 & Hstep & F1 & F2 & F3 & F4).
    exists b1. repeat split; congruence.
Qed.

(** ** Empty and full *)

(** X2.  A struct of capacity at least 2 whose head index is below the
    capacity is never reported both empty and full. *)
Theorem never_both_empty_and_full b :
  2 <= maxElems b < size_modulus -> 0 <= headInd b < maxElems b ->
  ~ (emCircularIsEmpty b = CB_true /\ emCircularIsFull b = CB_true).
Proof.
  intros Hc Hh [He Hfu].
  unfold emCircularIsEmpty, emCircularIsFull in *.
  destruct (negb (emCircularPort_EnterCritical (sem b) =? 0)); [discriminate |].
  destruct (Z.eqb_spec (headInd b) (tailInd b)) as [E | E]; [| discriminate].
  unfold size_rem, size_add in Hfu. rewrite wrap_small in Hfu by lia.
  destruct (Z.eqb_spec ((headInd b + 1) mod maxElems b) (tailInd b)) as [F | F];
    [| discriminate].
  rewrite <- E in F.
  destruct (Z.eq_dec (headInd b + 1) (maxElems b)) as [G | G].
  - rewrite G, Z_mod_same_full in F. lia.
  - rewrite Z.mod_small in F by lia. lia.
Qed.

(** X3.  In every state reached from a successful [emCircularInit] with the
    semaphore available, [emCircularIsEmpty] answers [CB_true] exactly when
    the element count is 0 and [emCircularIsFull] answers [CB_true] exactly
    when it is [maxElems - 1]. *)
Theorem index_tests_agree_with_count m e name heap b0 heap' b :
  emCircularInit m e name heap = (Returned (Some b0), heap') ->
  is_size_t m -> lock_ok b0 ->
  reachable b0 (Some b) ->
  (emCircularIsEmpty b = CB_true <-> NbElems b = 0)
  /\ (emCircularIsFull b = CB_true <-> NbElems b = maxElems b - 1).
Proof.
  intros Hinit Hm Hl Hr.
  apply Init_success in Hinit as (Hf & Hcap & _). subst m.
  assert (Hc : 2 <= maxElems b0 < size_modulus)
    by (unfold fresh in Hf; unfold is_size_t in Hm; lia).
  apply reachable_tracked in Hr as (H & T & [= ->] & HTH & Hle);
    [| exact Hf | lia].
  rewrite IsEmpty_at, IsFull_at by assumption.
  cbn [NbElems maxElems state_at].
  split.
  - destruct (Nat.eqb_spec H T); split; intros; (lia || discriminate || reflexivity).
  - destruct (Z.eqb_spec (Z.of_nat H - Z.of_nat T) (maxElems b0 - 1));
      split; intros; (lia || discriminate || reflexivity).
Qed.

(** ** Accounting over a run *)

(** X4.  After any sequence of calls on a created buffer (storage allocated,
    semaphore available) the element count is the number of addresses granted
    by [emCircularGetHead] minus the number granted by [emCircularGetTail], it
    lies between 0 and [maxElems - 1], and [emCircularGetRemainingSpace]
    returns the capacity minus it. *)
Theorem count_is_grants_difference m e name heap b0 heap' ops :
  emCircularInit m e name heap = (Returned (Some b0), heap') ->
  storage_ok b0 -> lock_ok b0 ->
  let tr := fst (run (Some b0) ops) in
  let h := snd (run (Some b0) ops) in
  exists b,
    h = Some b
    /\ NbElems b
       = Z.of_nat (List.length (granted Produce tr))
         - Z.of_nat (List.length (granted Consume tr))
    /\ 0 <= NbElems b <= m - 1
    /\ emCircularGetRemainingSpace h = m - NbElems b.
Proof.
  intros Hinit Hs Hl tr h.
  destruct (created_capacity _ _ _ _ _ _ Hinit Hs) as (Hf & Hm & Hc). subst m.
  destruct (run_from_created b0 ops Hf Hc Hl Hs)
    as (nh & nt & Hfin & Hord & Hle & Hp & Hq).
  exists (state_at b0 nh nt). unfold tr, h.
  rewrite Hfin, Hp, Hq, !length_map, !length_seq.
  cbn [NbElems state_at].
  repeat split; try lia.
  unfold emCircularGetRemainingSpace.
  rewrite (lock_ok_eqb (state_at b0 nh nt)) by exact Hl.
  cbn [maxElems NbElems state_at].
  replace (maxElems b0 >=? Z.of_nat nh - Z.of_nat nt) with true
    by (symmetry; rewrite Z.geb_leb; apply Z.leb_le; lia).
  unfold size_sub. apply wrap_small. lia.
Qed.

(** X5.  Every address granted in a run on a created buffer with allocated
    storage is the start of a slot inside the storage block: it is
    [startBuffer + i * elemSize] for an index [i] below the capacity, so the
    [elemSize] bytes at it end within the block. *)
Theorem granted_addresses_are_slots_of_the_block m e name heap b0 heap' ops o p :
  emCircularInit m e name heap = (Returned (Some b0), heap') ->
  storage_ok b0 ->
  In p (granted o (fst (run (Some b0) ops))) ->
  (exists i, 0 <= i < m /\ p = startBuffer b0 + i * e)
  /\ startBuffer b0 <= p
  /\ p + e <= startBuffer b0 + m * e.
Proof.
  intros Hinit Hs Hin.
  destruct (created_capacity _ _ _ _ _ _ Hinit Hs) as (Hf & Hm & Hc).
  apply Init_success in Hinit as (_ & _ & He). subst m e.
  assert (Hslot : exists K : nat, p = slot b0 K).
  { destruct (lock_ok_dec b0) as [Hl | Hl].
    - destruct (run_from_created b0 ops Hf Hc Hl Hs)
        as (nh & nt & _ & _ & _ & Hp & Hq).
      destruct o; [rewrite Hp in Hin | rewrite Hq in Hin];
        apply in_map_iff in Hin as (K & <- & _); eauto.
    - rewrite run_lock_failed in Hin by exact Hl. cbn [fst] in Hin.
      rewrite granted_all_null in Hin. destruct Hin. }
  destruct Hslot as (K & ->).
  rewrite slot_address by (lia || assumption).
  pose proof (of_nat_mod_range K (maxElems b0) ltac:(lia)) as Hr.
  destruct Hs as (Hs0 & Hes & Hend).
  split; [exists (Z.of_nat K mod maxElems b0); split; [lia | reflexivity] |].
  split; nia.
Qed.

(** ** The slots in flight *)

Lemma slots_apart b0 (K1 K2 : nat) :
  2 <= maxElems b0 -> storage_ok b0 ->
  (K1 < K2)%nat -> Z.of_nat K2 - Z.of_nat K1 < maxElems b0 ->
  slot b0 K1 + elemSize b0 <= slot b0 K2
  \/ slot b0 K2 + elemSize b0 <= slot b0 K1.
Proof.
  intros Hc Hs Hlt Hnear.
  rewrite !slot_address by assumption.
  pose proof (of_nat_mod_range K1 (maxElems b0) Hc) as R1.
  pose proof (of_nat_mod_range K2 (maxElems b0) Hc) as R2.
  assert (Hne : Z.of_nat K2 mod maxElems b0 <> Z.of_nat K1 mod maxElems b0).
  { intros Heq. apply mod_eq_near in Heq; lia. }
  destruct Hs as (_ & Hes & _).
  destruct (Z.lt_total (Z.of_nat K1 mod maxElems b0) (Z.of_nat K2 mod maxElems b0))
    as [L | [L | L]]; [left; nia | congruence | right; nia].
Qed.

(** X6.  In a run on a created buffer with allocated storage, two different
    addresses among those granted to the producer and not yet handed to the
    consumer are at least [elemSize] apart: the slots in flight never
    overlap. *)
Theorem outstanding_slots_never_overlap m e name heap b0 heap' ops i j p q :
  emCircularInit m e name heap = (Returned (Some b0), heap') ->
  storage_ok b0 ->
  i <> j ->
  nth_error (outstanding (fst (run (Some b0) ops))) i = Some p ->
  nth_error (outstanding (fst (run (Some b0) ops))) j = Some q ->
  p + e <= q \/ q + e <= p.
Proof.
  intros Hinit Hs Hij Hp Hq.
  destruct (created_capacity _ _ _ _ _ _ Hinit Hs) as (Hf & Hm & Hc).
  apply Init_success in Hinit as (_ & _ & He). subst m e.
  unfold outstanding in *.
  destruct (lock_ok_dec b0) as [Hl | Hl].
  - destruct (run_from_created b0 ops Hf Hc Hl Hs)
      as (nh & nt & _ & Hord & Hle & Eh & Et).
    rewrite Eh, Et, length_map, length_seq, skipn_map, skipn_seq in Hp, Hq.
    apply nth_error_slots in Hp as (Hi & ->).
    apply nth_error_slots in Hq as (Hj & ->).
    cbn [Nat.add] in *.
    destruct (Nat.lt_total i j) as [L | [L | L]]; [| contradiction |].
    + apply slots_apart; (lia || assumption).
    + apply or_comm. apply slots_apart; (lia || assumption).
  - rewrite run_lock_failed in Hp by exact Hl. cbn [fst] in Hp.
    rewrite !granted_all_null in Hp. destruct i; discriminate.
Qed.

(** X7.  The ring reuses its slots with period [maxElems]: in a run on a
    created buffer with allocated storage, the [K]-th and the
    [(K + maxElems)]-th address granted by the same kind of call are equal. *)
Theorem grants_recur_with_period_capacity m e name heap b0 heap' ops o K p q :
  emCircularInit m e name heap = (Returned (Some b0), heap') ->
  storage_ok b0 ->
  nth_error (granted o (fst (run (Some b0) ops))) K = Some p ->
  nth_error (granted o (fst (run (Some b0) ops))) (K + Z.to_nat m) = Some q ->
  p = q.
Proof.
  intros Hinit Hs Hp Hq.
  destruct (created_capacity _ _ _ _ _ _ Hinit Hs) as (Hf & Hm & Hc). subst m.
  destruct (lock_ok_dec b0) as [Hl | Hl].
  - destruct (run_from_created b0 ops Hf Hc Hl Hs)
      as (nh & nt & _ & _ & _ & Eh & Et).
    assert (Hboth : exists n, granted o (fst (run (Some b0) ops))
                              = map (slot b0) (seq 0 n))
      by (destruct o; eauto).
    destruct Hboth as (n & En). rewrite En in Hp, Hq.
    apply nth_error_slots in Hp as (_ & ->).
    apply nth_error_slots in Hq as (_ & ->).
    cbn [Nat.add]. unfold slot. do 2 f_equal.
    replace (Z.of_nat (K + Z.to_nat (maxElems b0)))
      with (Z.of_nat K + 1 * maxElems b0) by lia.
    symmetry. apply Z_mod_plus_full.
  - rewrite run_lock_failed in Hp by exact Hl. cbn [fst] in Hp.
    rewrite granted_all_null in Hp. destruct K; discriminate.
Qed.

(** ** Refused calls *)

(** X8.  In a state reached from a successful [emCircularInit] with allocated
    storage, a call of [emCircularGetHead] or [emCircularGetTail] that returns
    NULL has left the struct exactly as it was. *)
Theorem NULL_return_leaves_buffer_unchanged m e name heap b0 heap' h o :
  emCircularInit m e name heap = (Returned (Some b0), heap') ->
  storage_ok b0 ->
  reachable b0 h ->
  fst (call o h) = NULL ->
  snd (call o h) = h.
Proof.
  intros Hinit Hs Hr Hnull.
  destruct (created_capacity _ _ _ _ _ _ Hinit Hs) as (Hf & Hm & Hc).
  apply reachable_tracked in Hr as (H & T & -> & HTH & Hle);
    [| exact Hf | lia].
  destruct (lock_ok_dec b0) as [Hl | Hl].
  - destruct o; cbn [call] in *.
    + rewrite GetHead_at in * by assumption.
      destruct (Z.eqb_spec (Z.of_nat H - Z.of_nat T) (maxElems b0 - 1));
        [reflexivity |].
      cbn [fst] in Hnull. apply slot_not_null in Hnull; [easy | lia | exact Hs].
    + rewrite GetTail_at in * by assumption.
      destruct (Nat.eqb_spec H T); [reflexivity |].
      cbn [fst] in Hnull. apply slot_not_null in Hnull; [easy | lia | exact Hs].
  - rewrite call_lock_failed by exact Hl. reflexivity.
Qed.

(** X9.  When the semaphore of a buffer cannot be taken, [emCircularIsEmpty]
    and [emCircularIsFull] answer [CB_error], [emCircularGetRemainingSpace]
    returns 0, every [emCircularGetHead] and [emCircularGetTail] of a run
    returns NULL and leaves the struct as it was, and [emCircularDelete]
    returns [CB_error] without freeing anything. *)
Theorem failed_lock_blocks_every_operation b :
  ~ lock_ok b ->
  emCircularIsEmpty b = CB_error
  /\ emCircularIsFull b = CB_error
  /\ emCircularGetRemainingSpace (Some b) = 0
  /\ (forall ops, run (Some b) ops = (map (fun o => (o, NULL)) ops, Some b))
  /\ emCircularDelete (Some b) = Returned (CB_error, []).
Proof.
  intros Hl.
  assert (E : negb (emCircularPort_EnterCritical (sem b) =? 0) = true).
  { apply negb_true_iff, Z.eqb_neq. exact Hl. }
  unfold emCircularIsEmpty, emCircularIsFull, emCircularGetRemainingSpace,
    emCircularDelete.
  rewrite E. repeat split.
  intros ops. apply run_lock_failed, Hl.
Qed.

(** ** Producing and consuming in turn *)

(** X10.  On an empty buffer reached from a successful [emCircularInit]
    (storage allocated, semaphore available), [emCircularGetHead] returns a
    non-NULL address, the [emCircularGetTail] that follows returns the same
    address, and the buffer is empty again with an element count of 0. *)
Theorem produce_then_consume_on_empty_buffer m e name heap b0 heap' b :
  emCircularInit m e name heap = (Returned (Some b0), heap') ->
  storage_ok b0 -> lock_ok b0 ->
  reachable b0 (Some b) ->
  emCircularIsEmpty b = CB_true ->
  exists p b1 b2,
    emCircularGetHead (Some b) = (p, Some b1)
    /\ p <> NULL
    /\ emCircularGetTail (Some b1) = (p, Some b2)
    /\ emCircularIsEmpty b2 = CB_true
    /\ NbElems b2 = 0.
Proof.
  intros Hinit Hs Hl Hr Hempty.
  destruct (created_capacity _ _ _ _ _ _ Hinit Hs) as (Hf & Hm & Hc).
  apply reachable_tracked in Hr as (H & T & [= ->] & HTH & Hle);
    [| exact Hf | lia].
  rewrite IsEmpty_at in Hempty by assumption.
  destruct (Nat.eqb_spec H T) as [E | E]; [subst T | discriminate].
  exists (slot b0 H), (state_at b0 (S H) H), (state_at b0 (S H) (S H)).
  split; [| split; [| split; [| split]]].
  - rewrite GetHead_at by assumption.
    destruct (Z.eqb_spec (Z.of_nat H - Z.of_nat H) (maxElems b0 - 1)); [lia |].
    reflexivity.
  - apply slot_not_null; [lia | exact Hs].
  - rewrite GetTail_at by (assumption || lia).
    destruct (Nat.eqb_spec (S H) H); [lia | reflexivity].
  - rewrite IsEmpty_at by (assumption || lia).
    rewrite Nat.eqb_refl. reflexivity.
  - cbn [NbElems state_at]. lia.
Qed.

Lemma run_consume b0 (n H T : nat) :
  2 <= maxElems b0 < size_modulus -> lock_ok b0 ->
  (T + n <= H)%nat -> Z.of_nat H - Z.of_nat T <= maxElems b0 - 1 ->
  run (Some (state_at b0 H T)) (repeat Consume n)
  = (map (fun K => (Consume, slot b0 K)) (seq T n),
     Some (state_at b0 H (T + n))).
Proof.
  intros Hc Hl. revert T.
  induction n as [| n IH]; intros T HTH Hle; cbn [repeat run seq map].
  - rewrite Nat.add_0_r. reflexivity.
  - cbn [call]. rewrite GetTail_at by (assumption || lia).
    destruct (Nat.eqb_spec H T); [lia |].
    rewrite IH by lia.
    replace (S T + n)%nat with (T + S n)%nat by lia. reflexivity.
Qed.

(** X11.  On a created buffer (storage allocated, semaphore available), [n]
    producer calls followed by [n] consumer calls, for any [n] up to
    [maxElems - 1], all succeed; the consumer receives the producer's
    addresses in the same order, and the buffer ends empty with an element
    count of 0, a further [emCircularGetTail] returning NULL. *)
Theorem fill_then_drain_returns_the_same_addresses m e name heap b0 heap' (n : nat) :
  emCircularInit m e name heap = (Returned (Some b0), heap') ->
  storage_ok b0 -> lock_ok b0 ->
  Z.of_nat n <= m - 1 ->
  exists addrs b,
    run (Some b0) (repeat Produce n ++ repeat Consume n)
    = (map (pair Produce) addrs ++ map (pair Consume) addrs, Some b)
    /\ List.length addrs = n
    /\ Forall (fun p => p <> NULL) addrs
    /\ emCircularIsEmpty b = CB_true
    /\ NbElems b = 0
    /\ fst (emCircularGetTail (Some b)) = NULL.
Proof.
  intros Hinit Hs Hl Hn.
  destruct (created_capacity _ _ _ _ _ _ Hinit Hs) as (Hf & Hm & Hc). subst m.
  exists (map (slot b0) (seq 0 n)), (state_at b0 n n).
  split; [| split; [| split; [| split; [| split]]]].
  - rewrite run_app.
    rewrite (fresh_state_at b0 Hf) at 1.
    rewrite run_produce by (assumption || lia). cbn [Nat.add].
    rewrite run_consume by (assumption || lia). cbn [Nat.add].
    rewrite !map_map. reflexivity.
  - rewrite length_map, length_seq. reflexivity.
  - apply Forall_map, Forall_forall. intros K _.
    apply slot_not_null; [lia | exact Hs].
  - rewrite IsEmpty_at by (assumption || lia).
    rewrite Nat.eqb_refl. reflexivity.
  - cbn [NbElems state_at]. lia.
  - rewrite GetTail_at by (assumption || lia).
    rewrite Nat.eqb_refl. reflexivity.
Qed.

(** ** Deletion *)

(** X12.  [emCircularDelete] dereferences a NULL handle.  On a struct whose
    semaphore cannot be taken it answers [CB_error] and frees nothing; on a
    struct whose semaphore is available it answers [CB_false], having freed
    the storage when its pointer is not NULL, then the struct, and deleted the
    semaphore when locking is on.  It never answers [CB_true]. *)
Theorem Delete_never_answers_CB_true :
  emCircularDelete None = NullDeref
  /\ forall b,
       (~ lock_ok b -> emCircularDelete (Some b) = Returned (CB_error, []))
       /\ (lock_ok b ->
           emCircularDelete (Some b)
           = Returned (CB_false,
                       (if startBuffer b =? NULL then []
                        else [EvFree (startBuffer b)])
                       ++ [EvFreeStruct]
                       ++ emCircularPort_BynSemDelete (sem b)))
       /\ (forall ev, emCircularDelete (Some b) <> Returned (CB_true, ev)).
Proof.
  split; [reflexivity |].
  intros b. unfold emCircularDelete.
  split; [| split].
  - intros Hl.
    assert (E : negb (emCircularPort_EnterCritical (sem b) =? 0) = true)
      by (apply negb_true_iff, Z.eqb_neq; exact Hl).
    rewrite E. reflexivity.
  - intros Hl. rewrite (lock_ok_eqb b Hl).
    destruct (startBuffer b =? NULL); reflexivity.
  - intros ev.
    destruct (negb (emCircularPort_EnterCritical (sem b) =? 0)); discriminate.
Qed.



(** ** Creation and the allocator *)

(** X14.  [emCircularInit] does not notice when [maxElems * elemSize] exceeds
    size_t: it succeeds with the capacity and element size asked for, having
    requested only [(maxElems * elemSize) mod 2^size_bits] bytes of storage,
    fewer than the ring spans. *)
Theorem Init_does_not_check_size_overflow m e name p1 p2 rest log :
  2 <= m -> 1 <= e -> size_modulus <= m * e ->
  p1 <> NULL ->
  CIRCULAR_USE_LOCK_MECHANISM P = false \/ osSemaphoreNew P <> NULL ->
  exists b,
    emCircularInit m e name
      {| malloc_results := p1 :: p2 :: rest; malloc_log := log |}
    = (Returned (Some b),
       {| malloc_results := rest;
          malloc_log := (log ++ [sizeof_CBuffer_t])
                        ++ [(m * e) mod size_modulus] |})
    /\ maxElems b = m /\ elemSize b = e /\ startBuffer b = p2
    /\ (m * e) mod size_modulus < m * e.
Proof.
  intros Hm He Hover Hp Hlock.
  unfold emCircularInit, emCircularPort_InitBynSem.
  destruct (Z.ltb_spec m 2); [lia |].
  destruct (Z.ltb_spec e 1); [lia |].
  cbn [emCircularPortMalloc malloc_results malloc_log].
  apply Z.eqb_neq in Hp. rewrite Hp.
  assert (Hmod : (m * e) mod size_modulus < m * e).
  { pose proof (Z.mod_pos_bound (m * e) size_modulus size_modulus_pos). lia. }
  destruct (CIRCULAR_USE_LOCK_MECHANISM P) eqn:EL; cbn [andb].
  - destruct Hlock as [Hoff | Hnew]; [discriminate |].
    apply Z.eqb_neq in Hnew. rewrite Hnew.
    eexists. split; [reflexivity |]. cbn. auto.
  - eexists. split; [reflexivity |]. cbn. auto.
Qed.

(** X15.  With locking on, when the semaphore cannot be created,
    [emCircularInit] returns NULL after both allocations were made: the
    allocator has served the struct and the storage request, and the function
    frees neither. *)
Theorem Init_keeps_allocations_when_semaphore_fails m e name p1 p2 rest log :
  2 <= m -> 1 <= e -> p1 <> NULL ->
  CIRCULAR_USE_LOCK_MECHANISM P = true -> osSemaphoreNew P = NULL ->
  emCircularInit m e name
    {| malloc_results := p1 :: p2 :: rest; malloc_log := log |}
  = (Returned None,
     {| malloc_results := rest;
        malloc_log := (log ++ [sizeof_CBuffer_t]) ++ [size_mul m e] |}).
Proof.
  intros Hm He Hp Hlock Hnew.
  unfold emCircularInit, emCircularPort_InitBynSem.
  destruct (Z.ltb_spec m 2); [lia |].
  destruct (Z.ltb_spec e 1); [lia |].
  cbn [emCircularPortMalloc malloc_results malloc_log].
  apply Z.eqb_neq in Hp. rewrite Hp, Hlock, Hnew. reflexivity.
Qed.

(** ** Polling before a call *)

(** X16.  In a state reached from a successful [emCircularInit] (storage
    allocated, semaphore available), [emCircularGetHead] returns NULL exactly
    when [emCircularIsFull] answers [CB_true], and [emCircularGetTail] returns
    NULL exactly when [emCircularIsEmpty] answers [CB_true]. *)
Theorem refusal_exactly_when_full_or_empty m e name heap b0 heap' b :
  emCircularInit m e name heap = (Returned (Some b0), heap') ->
  storage_ok b0 -> lock_ok b0 ->
  reachable b0 (Some b) ->
  (fst (emCircularGetHead (Some b)) = NULL <-> emCircularIsFull b = CB_true)
  /\ (fst (emCircularGetTail (Some b)) = NULL <-> emCircularIsEmpty b = CB_true).
Proof.
  intros Hinit Hs Hl Hr.
  destruct (created_capacity _ _ _ _ _ _ Hinit Hs) as (Hf & Hm & Hc).
  apply reachable_tracked in Hr as (H & T & [= ->] & HTH & Hle);
    [| exact Hf | lia].
  rewrite GetHead_at, GetTail_at, IsFull_at, IsEmpty_at by assumption.
  pose proof (slot_not_null b0 H ltac:(lia) Hs) as NH.
  pose proof (slot_not_null b0 T ltac:(lia) Hs) as NT.
  split.
  - destruct (Z.eqb_spec (Z.of_nat H - Z.of_nat T) (maxElems b0 - 1));
      cbn [fst]; split; intros; try reflexivity; (contradiction || discriminate).
  - destruct (Nat.eqb_spec H T);
      cbn [fst]; split; intros; try reflexivity; (contradiction || discriminate).
Qed.

End Buffer.

(** * Evaluations on the shipped port *)

(** C3.  The buffer [emCircularInit] returns for capacity 4 answers
    [CB_true] to [emCircularIsEmpty] and [CB_false] to [emCircularIsFull], as
    the claim has it, but [emCircularGetRemainingSpace] returns 4, the
    capacity itself and not capacity - 1, although only 3 calls of
    [emCircularGetHead] can be made. *)
Theorem fresh_buffer_remaining_space_is_capacity :
  emCircularInit shipped_port 4 4 None heap_example
  = (Returned (Some buffer_example), heap_example_after)
  /\ emCircularIsEmpty shipped_port buffer_example = CB_true
  /\ emCircularIsFull shipped_port buffer_example = CB_false
  /\ emCircularGetRemainingSpace shipped_port (Some buffer_example) = 4
  /\ fst (emCircularGetHead shipped_port
            (snd (run shipped_port (Some buffer_example)
                    [Produce; Produce; Produce]))) = NULL.
Proof. repeat split. Qed.

(** C4.  In the state reached by three producer calls on the buffer of
    capacity 4, [emCircularGetRemainingSpace] returns [maxElems - NbElems],
    here 1, while the buffer is full and the next [emCircularGetHead] returns
    NULL: the value is one more than the producer calls that still succeed. *)
Theorem remaining_space_exceeds_grantable_calls :
  let h := snd (run shipped_port (Some buffer_example) [Produce; Produce; Produce]) in
  reachable shipped_port buffer_example h
  /\ (exists b, h = Some b
        /\ emCircularGetRemainingSpace shipped_port h = maxElems b - NbElems b
        /\ emCircularIsFull shipped_port b = CB_true)
  /\ emCircularGetRemainingSpace shipped_port h = 1
  /\ fst (emCircularGetHead shipped_port h) = NULL.
Proof.
  cbv zeta. split; [| split; [| split]].
  - change (snd (run shipped_port (Some buffer_example) [Produce; Produce; Produce]))
      with (snd (call shipped_port Produce
             (snd (call shipped_port Produce
               (snd (call shipped_port Produce (Some buffer_example))))))).
    do 3 apply reach_call. apply reach_init.
  - eexists. split; [reflexivity | split; reflexivity].
  - reflexivity.
  - reflexivity.
Qed.

(** C7.  With capacity 4 and element size 4, when the allocator serves the
    struct and fails the storage request, [emCircularInit] returns a handle
    that is not NULL, its storage pointer being NULL; when the allocator fails
    the struct request, the function writes through the NULL pointer instead
    of returning. *)
Theorem Init_ignores_allocation_failure :
  (exists b h',
     emCircularInit shipped_port 4 4 None heap_storage_fails
     = (Returned (Some b), h')
     /\ startBuffer b = NULL)
  /\ fst (emCircularInit shipped_port 4 4 None heap_exhausted) = NullDeref.
Proof.
  split.
  - eexists _, _. split; reflexivity.
  - reflexivity.
Qed.

(** * The theorems at work on the shipped port *)

Lemma GetHead_fills_in_capacity_minus_one_witness :
  emCircularInit shipped_port 4 4 None heap_example
  = (Returned (Some buffer_example), heap_example_after)
  /\ storage_ok shipped_port buffer_example
  /\ lock_ok shipped_port buffer_example
  /\ exists tr b,
       run shipped_port (Some buffer_example) (repeat Produce (Z.to_nat (4 - 1)))
       = (tr, Some b)
       /\ List.length tr = Z.to_nat (4 - 1)
       /\ Forall (fun r => snd r <> NULL) tr
       /\ emCircularIsFull shipped_port b = CB_true
       /\ fst (emCircularGetHead shipped_port (Some b)) = NULL.
Proof.
  split; [reflexivity |].
  split; [unfold storage_ok, size_modulus; cbn; lia |].
  split; [reflexivity |].
  apply (GetHead_fills_in_capacity_minus_one shipped_port 4 4 None
           heap_example buffer_example heap_example_after).
  - reflexivity.
  - unfold storage_ok, size_modulus; cbn; lia.
  - reflexivity.
Defined.

Lemma GetTail_returns_GetHead_addresses_in_order_witness :
  emCircularInit shipped_port 4 4 None heap_example
  = (Returned (Some buffer_example), heap_example_after)
  /\ storage_ok shipped_port buffer_example
  /\ nth_error
       (granted Consume
          (fst (run shipped_port (Some buffer_example)
                  [Produce; Produce; Consume; Produce; Consume]))) 1
     = Some 8196
  /\ nth_error
       (granted Produce
          (fst (run shipped_port (Some buffer_example)
                  [Produce; Produce; Consume; Produce; Consume]))) 1
     = Some 8196.
Proof.
  split; [reflexivity |].
  split; [unfold storage_ok, size_modulus; cbn; lia |].
  split; [reflexivity |].
  apply (GetTail_returns_GetHead_addresses_in_order shipped_port 4 4 None
           heap_example buffer_example heap_example_after).
  - reflexivity.
  - unfold storage_ok, size_modulus; cbn; lia.
  - reflexivity.
Defined.

Lemma GetHead_grants_head_slot_witness :
  well_formed shipped_port buffer_example
  /\ emCircularIsFull shipped_port buffer_example = CB_false
  /\ exists b',
       emCircularGetHead shipped_port (Some buffer_example)
       = (ptr_add shipped_port (startBuffer buffer_example)
            (size_mul shipped_port (headInd buffer_example)
               (elemSize buffer_example)), Some b')
       /\ headInd b' = (headInd buffer_example + 1) mod maxElems buffer_example
       /\ NbElems b' = NbElems buffer_example + 1
       /\ tailInd b' = tailInd buffer_example
       /\ (storage_ok shipped_port buffer_example ->
           ptr_add shipped_port (startBuffer buffer_example)
             (size_mul shipped_port (headInd buffer_example)
                (elemSize buffer_example))
           = startBuffer buffer_example
             + headInd buffer_example * elemSize buffer_example).
Proof.
  split; [unfold well_formed, size_modulus; cbn; lia |].
  split; [reflexivity |].
  apply (GetHead_grants_head_slot shipped_port buffer_example).
  - unfold well_formed, size_modulus; cbn; lia.
  - reflexivity.
Defined.

Lemma GetTail_on_empty_changes_nothing_witness :
  headInd buffer_example = tailInd buffer_example
  /\ emCircularGetTail shipped_port (Some buffer_example)
     = (NULL, Some buffer_example).
Proof.
  split; [reflexivity |].
  apply (GetTail_on_empty_changes_nothing shipped_port buffer_example).
  reflexivity.
Defined.

Lemma GetHead_overcount_returns_NULL_without_rollback_witness :
  0 < maxElems buffer_overcounted < size_modulus shipped_port
  /\ 0 <= headInd buffer_overcounted < maxElems buffer_overcounted
  /\ emCircularIsFull shipped_port buffer_overcounted = CB_false
  /\ maxElems buffer_overcounted < NbElems buffer_overcounted + 1
     < size_modulus shipped_port
  /\ exists b',
       emCircularGetHead shipped_port (Some buffer_overcounted) = (NULL, Some b')
       /\ NbElems b' = NbElems buffer_overcounted + 1
       /\ headInd b'
          = (headInd buffer_overcounted + 1) mod maxElems buffer_overcounted
       /\ tailInd b' = tailInd buffer_overcounted
       /\ startBuffer b' = startBuffer buffer_overcounted
       /\ elemSize b' = elemSize buffer_overcounted
       /\ maxElems b' = maxElems buffer_overcounted
       /\ sem b' = sem buffer_overcounted.
Proof.
  split; [unfold size_modulus; cbn; lia |].
  split; [cbn; lia |].
  split; [reflexivity |].
  split; [unfold size_modulus; cbn; lia |].
  apply (GetHead_overcount_returns_NULL_without_rollback shipped_port
           buffer_overcounted).
  - unfold size_modulus; cbn; lia.
  - cbn; lia.
  - reflexivity.
  - unfold size_modulus; cbn; lia.
Defined.

Lemma GetTail_underflow_guard_never_fires_witness :
  maxElems buffer_undercounted <> 0
  /\ emCircularIsEmpty shipped_port buffer_undercounted = CB_false
  /\ emCircularGetTail shipped_port (Some buffer_undercounted)
     = (8196,
        Some {| tailInd := 2; headInd := 3; startBuffer := 8192; elemSize := 4;
                maxElems := 4; NbElems := 4294967295; sem := NULL |}).
Proof.
  split; [cbn; lia |].
  split; [reflexivity |].
  apply (proj2 (GetTail_underflow_guard_never_fires shipped_port)
           buffer_undercounted).
  - cbn; lia.
  - reflexivity.
Defined.

Lemma reachable_states_keep_invariant_witness :
  emCircularInit shipped_port 4 4 None heap_example
  = (Returned (Some buffer_example), heap_example_after)
  /\ is_size_t shipped_port 4
  /\ reachable shipped_port buffer_example
       (snd (call shipped_port Consume
               (snd (call shipped_port Produce (Some buffer_example)))))
  /\ exists b,
       snd (call shipped_port Consume
              (snd (call shipped_port Produce (Some buffer_example)))) = Some b
       /\ maxElems b = 4
       /\ invariant b.
Proof.
  split; [reflexivity |].
  split; [unfold is_size_t, size_modulus; cbn; lia |].
  split; [do 2 apply reach_call; apply reach_init |].
  apply (reachable_states_keep_invariant shipped_port 4 4 None
           heap_example buffer_example heap_example_after).
  - reflexivity.
  - unfold is_size_t, size_modulus; cbn; lia.
  - do 2 apply reach_call. apply reach_init.
Defined.

(** * The further theorems at work *)

Lemma calls_never_change_configuration_witness :
  reachable shipped_port buffer_example
    (snd (call shipped_port Produce (Some buffer_example)))
  /\ exists b,
       snd (call shipped_port Produce (Some buffer_example)) = Some b
       /\ startBuffer b = startBuffer buffer_example
       /\ elemSize b = elemSize buffer_example
       /\ maxElems b = maxElems buffer_example
       /\ sem b = sem buffer_example.
Proof.
  split; [apply reach_call, reach_init |].
  apply (calls_never_change_configuration shipped_port buffer_example).
  apply reach_call, reach_init.
Defined.

Lemma never_both_empty_and_full_witness :
  2 <= maxElems buffer_example < size_modulus shipped_port
  /\ 0 <= headInd buffer_example < maxElems buffer_example
  /\ ~ (emCircularIsEmpty shipped_port buffer_example = CB_true
        /\ emCircularIsFull shipped_port buffer_example = CB_true).
Proof.
  split; [unfold size_modulus; cbn; lia |].
  split; [cbn; lia |].
  apply (never_both_empty_and_full shipped_port buffer_example).
  - unfold size_modulus; cbn; lia.
  - cbn; lia.
Defined.

Lemma buffer_one_produced_reachable :
  reachable shipped_port buffer_example (Some buffer_one_produced).
Proof.
  change (Some buffer_one_produced)
    with (snd (call shipped_port Produce (Some buffer_example))).
  apply reach_call, reach_init.
Defined.

Lemma index_tests_agree_with_count_witness :
  emCircularInit shipped_port 4 4 None heap_example
  = (Returned (Some buffer_example), heap_example_after)
  /\ is_size_t shipped_port 4
  /\ lock_ok shipped_port buffer_example
  /\ reachable shipped_port buffer_example (Some buffer_one_produced)
  /\ (emCircularIsEmpty shipped_port buffer_one_produced = CB_true
      <-> NbElems buffer_one_produced = 0)
  /\ (emCircularIsFull shipped_port buffer_one_produced = CB_true
      <-> NbElems buffer_one_produced = maxElems buffer_one_produced - 1).
Proof.
  split; [reflexivity |].
  split; [unfold is_size_t, size_modulus; cbn; lia |].
  split; [reflexivity |].
  split; [exact buffer_one_produced_reachable |].
  apply (index_tests_agree_with_count shipped_port 4 4 None heap_example
           buffer_example heap_example_after buffer_one_produced).
  - reflexivity.
  - unfold is_size_t, size_modulus; cbn; lia.
  - reflexivity.
  - exact buffer_one_produced_reachable.
Defined.

Lemma count_is_grants_difference_witness :
  emCircularInit shipped_port 4 4 None heap_example
  = (Returned (Some buffer_example), heap_example_after)
  /\ storage_ok shipped_port buffer_example
  /\ lock_ok shipped_port buffer_example
  /\ exists b,
       snd (run shipped_port (Some buffer_example) [Produce; Produce; Consume])
       = Some b
       /\ NbElems b
          = Z.of_nat (List.length (granted Produce
               (fst (run shipped_port (Some buffer_example)
                       [Produce; Produce; Consume]))))
            - Z.of_nat (List.length (granted Consume
               (fst (run shipped_port (Some buffer_example)
                       [Produce; Produce; Consume]))))
       /\ 0 <= NbElems b <= 4 - 1
       /\ emCircularGetRemainingSpace shipped_port
            (snd (run shipped_port (Some buffer_example)
                    [Produce; Produce; Consume]))
          = 4 - NbElems b.
Proof.
  split; [reflexivity |].
  split; [unfold storage_ok, size_modulus; cbn; lia |].
  split; [reflexivity |].
  apply (count_is_grants_difference shipped_port 4 4 None heap_example
           buffer_example heap_example_after [Produce; Produce; Consume]).
  - reflexivity.
  - unfold storage_ok, size_modulus; cbn; lia.
  - reflexivity.
Defined.

Lemma granted_addresses_are_slots_of_the_block_witness :
  emCircularInit shipped_port 4 4 None heap_example
  = (Returned (Some buffer_example), heap_example_after)
  /\ storage_ok shipped_port buffer_example
  /\ In 8196 (granted Produce
                (fst (run shipped_port (Some buffer_example) [Produce; Produce])))
  /\ (exists i, 0 <= i < 4 /\ 8196 = startBuffer buffer_example + i * 4)
  /\ startBuffer buffer_example <= 8196
  /\ 8196 + 4 <= startBuffer buffer_example + 4 * 4.
Proof.
  split; [reflexivity |].
  split; [unfold storage_ok, size_modulus; cbn; lia |].
  split; [cbn; auto |].
  apply (granted_addresses_are_slots_of_the_block shipped_port 4 4 None
           heap_example buffer_example heap_example_after
           [Produce; Produce] Produce 8196).
  - reflexivity.
  - unfold storage_ok, size_modulus; cbn; lia.
  - cbn; auto.
Defined.

Lemma outstanding_slots_never_overlap_witness :
  emCircularInit shipped_port 4 4 None heap_example
  = (Returned (Some buffer_example), heap_example_after)
  /\ storage_ok shipped_port buffer_example
  /\ nth_error (outstanding
       (fst (run shipped_port (Some buffer_example)
               [Produce; Produce; Produce; Consume]))) 0 = Some 8196
  /\ nth_error (outstanding
       (fst (run shipped_port (Some buffer_example)
               [Produce; Produce; Produce; Consume]))) 1 = Some 8200
  /\ (8196 + 4 <= 8200 \/ 8200 + 4 <= 8196).
Proof.
  split; [reflexivity |].
  split; [unfold storage_ok, size_modulus; cbn; lia |].
  split; [reflexivity |].
  split; [reflexivity |].
  apply (outstanding_slots_never_overlap shipped_port 4 4 None heap_example
           buffer_example heap_example_after
           [Produce; Produce; Produce; Consume] 0%nat 1%nat 8196 8200).
  - reflexivity.
  - unfold storage_ok, size_modulus; cbn; lia.
  - lia.
  - reflexivity.
  - reflexivity.
Defined.

Lemma grants_recur_with_period_capacity_witness :
  emCircularInit shipped_port 4 4 None heap_example
  = (Returned (Some buffer_example), heap_example_after)
  /\ storage_ok shipped_port buffer_example
  /\ nth_error (granted Produce
       (fst (run shipped_port (Some buffer_example)
               [Produce; Consume; Produce; Consume; Produce; Consume;
                Produce; Consume; Produce]))) 0 = Some 8192
  /\ nth_error (granted Produce
       (fst (run shipped_port (Some buffer_example)
               [Produce; Consume; Produce; Consume; Produce; Consume;
                Produce; Consume; Produce]))) (0 + Z.to_nat 4) = Some 8192
  /\ 8192 = 8192.
Proof.
  split; [reflexivity |].
  split; [unfold storage_ok, size_modulus; cbn; lia |].
  split; [reflexivity |].
  split; [reflexivity |].
  apply (grants_recur_with_period_capacity shipped_port 4 4 None heap_example
           buffer_example heap_example_after
           [Produce; Consume; Produce; Consume; Produce; Consume;
            Produce; Consume; Produce] Produce 0%nat 8192 8192).
  - reflexivity.
  - unfold storage_ok, size_modulus; cbn; lia.
  - reflexivity.
  - reflexivity.
Defined.

Lemma NULL_return_leaves_buffer_unchanged_witness :
  emCircularInit shipped_port 4 4 None heap_example
  = (Returned (Some buffer_example), heap_example_after)
  /\ storage_ok shipped_port buffer_example
  /\ reachable shipped_port buffer_example (Some buffer_example)
  /\ fst (call shipped_port Consume (Some buffer_example)) = NULL
  /\ snd (call shipped_port Consume (Some buffer_example)) = Some buffer_example.
Proof.
  split; [reflexivity |].
  split; [unfold storage_ok, size_modulus; cbn; lia |].
  split; [apply reach_init |].
  split; [reflexivity |].
  apply (NULL_return_leaves_buffer_unchanged shipped_port 4 4 None heap_example
           buffer_example heap_example_after (Some buffer_example) Consume).
  - reflexivity.
  - unfold storage_ok, size_modulus; cbn; lia.
  - apply reach_init.
  - reflexivity.
Defined.

Lemma failed_lock_blocks_every_operation_witness :
  ~ lock_ok locked_out_port buffer_locking_example
  /\ emCircularIsEmpty locked_out_port buffer_locking_example = CB_error
  /\ emCircularIsFull locked_out_port buffer_locking_example = CB_error
  /\ emCircularGetRemainingSpace locked_out_port (Some buffer_locking_example) = 0
  /\ (forall ops,
        run locked_out_port (Some buffer_locking_example) ops
        = (map (fun o => (o, NULL)) ops, Some buffer_locking_example))
  /\ emCircularDelete locked_out_port (Some buffer_locking_example)
     = Returned (CB_error, []).
Proof.
  split; [unfold lock_ok; cbn; lia |].
  apply (failed_lock_blocks_every_operation locked_out_port
           buffer_locking_example).
  unfold lock_ok; cbn; lia.
Defined.

Lemma produce_then_consume_on_empty_buffer_witness :
  emCircularInit shipped_port 4 4 None heap_example
  = (Returned (Some buffer_example), heap_example_after)
  /\ storage_ok shipped_port buffer_example
  /\ lock_ok shipped_port buffer_example
  /\ reachable shipped_port buffer_example (Some buffer_example)
  /\ emCircularIsEmpty shipped_port buffer_example = CB_true
  /\ exists p b1 b2,
       emCircularGetHead shipped_port (Some buffer_example) = (p, Some b1)
       /\ p <> NULL
       /\ emCircularGetTail shipped_port (Some b1) = (p, Some b2)
       /\ emCircularIsEmpty shipped_port b2 = CB_true
       /\ NbElems b2 = 0.
Proof.
  split; [reflexivity |].
  split; [unfold storage_ok, size_modulus; cbn; lia |].
  split; [reflexivity |].
  split; [apply reach_init |].
  split; [reflexivity |].
  apply (produce_then_consume_on_empty_buffer shipped_port 4 4 None heap_example
           buffer_example heap_example_after buffer_example).
  - reflexivity.
  - unfold storage_ok, size_modulus; cbn; lia.
  - reflexivity.
  - apply reach_init.
  - reflexivity.
Defined.

Lemma fill_then_drain_returns_the_same_addresses_witness :
  emCircularInit shipped_port 4 4 None heap_example
  = (Returned (Some buffer_example), heap_example_after)
  /\ storage_ok shipped_port buffer_example
  /\ lock_ok shipped_port buffer_example
  /\ Z.of_nat 3 <= 4 - 1
  /\ exists addrs b,
       run shipped_port (Some buffer_example)
         (repeat Produce 3 ++ repeat Consume 3)
       = (map (pair Produce) addrs ++ map (pair Consume) addrs, Some b)
       /\ List.length addrs = 3%nat
       /\ Forall (fun p => p <> NULL) addrs
       /\ emCircularIsEmpty shipped_port b = CB_true
       /\ NbElems b = 0
       /\ fst (emCircularGetTail shipped_port (Some b)) = NULL.
Proof.
  split; [reflexivity |].
  split; [unfold storage_ok, size_modulus; cbn; lia |].
  split; [reflexivity |].
  split; [cbn; lia |].
  apply (fill_then_drain_returns_the_same_addresses shipped_port 4 4 None
           heap_example buffer_example heap_example_after 3).
  - reflexivity.
  - unfold storage_ok, size_modulus; cbn; lia.
  - reflexivity.
  - cbn; lia.
Defined.


Lemma Init_does_not_check_size_overflow_witness :
  2 <= 65536 /\ 1 <= 65536
  /\ size_modulus shipped_port <= 65536 * 65536
  /\ 4096 <> NULL
  /\ (CIRCULAR_USE_LOCK_MECHANISM shipped_port = false
      \/ osSemaphoreNew shipped_port <> NULL)
  /\ exists b,
       emCircularInit shipped_port 65536 65536 None
         {| malloc_results := [4096; 8192]; malloc_log := [] |}
       = (Returned (Some b),
          {| malloc_results := [];
             malloc_log := ([] ++ [sizeof_CBuffer_t shipped_port])
                           ++ [(65536 * 65536) mod size_modulus shipped_port] |})
       /\ maxElems b = 65536 /\ elemSize b = 65536 /\ startBuffer b = 8192
       /\ (65536 * 65536) mod size_modulus shipped_port < 65536 * 65536.
Proof.
  split; [lia |].
  split; [lia |].
  split; [unfold size_modulus; cbn; lia |].
  split; [unfold NULL; lia |].
  split; [left; reflexivity |].
  apply (Init_does_not_check_size_overflow shipped_port 65536 65536 None
           4096 8192 [] []).
  - lia.
  - lia.
  - unfold size_modulus; cbn; lia.
  - unfold NULL; lia.
  - left; reflexivity.
Defined.

Lemma Init_keeps_allocations_when_semaphore_fails_witness :
  2 <= 4 /\ 1 <= 4 /\ 4096 <> NULL
  /\ CIRCULAR_USE_LOCK_MECHANISM no_semaphore_port = true
  /\ osSemaphoreNew no_semaphore_port = NULL
  /\ emCircularInit no_semaphore_port 4 4 None
       {| malloc_results := [4096; 8192]; malloc_log := [] |}
     = (Returned None,
        {| malloc_results := [];
           malloc_log := ([] ++ [sizeof_CBuffer_t no_semaphore_port])
                         ++ [size_mul no_semaphore_port 4 4] |}).
Proof.
  split; [lia |].
  split; [lia |].
  split; [unfold NULL; lia |].
  split; [reflexivity |].
  split; [reflexivity |].
  apply (Init_keeps_allocations_when_semaphore_fails no_semaphore_port 4 4 None
           4096 8192 [] []).
  - lia.
  - lia.
  - unfold NULL; lia.
  - reflexivity.
  - reflexivity.
Defined.

Lemma refusal_exactly_when_full_or_empty_witness :
  emCircularInit shipped_port 4 4 None heap_example
  = (Returned (Some buffer_example), heap_example_after)
  /\ storage_ok shipped_port buffer_example
  /\ lock_ok shipped_port buffer_example
  /\ reachable shipped_port buffer_example (Some buffer_one_produced)
  /\ (fst (emCircularGetHead shipped_port (Some buffer_one_produced)) = NULL
      <-> emCircularIsFull shipped_port buffer_one_produced = CB_true)
  /\ (fst (emCircularGetTail shipped_port (Some buffer_one_produced)) = NULL
      <-> emCircularIsEmpty shipped_port buffer_one_produced = CB_true).
Proof.
  split; [reflexivity |].
  split; [unfold storage_ok, size_modulus; cbn; lia |].
  split; [reflexivity |].
  split; [exact buffer_one_produced_reachable |].
  apply (refusal_exactly_when_full_or_empty shipped_port 4 4 None heap_example
           buffer_example heap_example_after buffer_one_produced).
  - reflexivity.
  - unfold storage_ok, size_modulus; cbn; lia.
  - reflexivity.
  - exact buffer_one_produced_reachable.
Defined.

Lemma Delete_never_answers_CB_true_witness :
  (~ lock_ok locked_out_port buffer_locking_example
   /\ emCircularDelete locked_out_port (Some buffer_locking_example)
      = Returned (CB_error, []))
  /\ (lock_ok locking_port buffer_locking_example
      /\ emCircularDelete locking_port (Some buffer_locking_example)
         = Returned (CB_false, [EvFree 8192; EvFreeStruct; EvSemDelete 12288])).
Proof.
  split.
  - split; [unfold lock_ok; cbn; lia |].
    apply (proj1 (proj2 (Delete_never_answers_CB_true locked_out_port)
                    buffer_locking_example)).
    unfold lock_ok; cbn; lia.
  - split; [reflexivity |].
    apply (proj1 (proj2 (proj2 (Delete_never_answers_CB_true locking_port)
                           buffer_locking_example))).
    reflexivity.
Defined.
